(** * A shallow embedding of [src/app/main.py]

    The service has two parts: a small user registry over a relational
    store ([create_user], [list_users], [read_user]) and the speech
    pipeline [upload_and_transcribe] (video upload, audio extraction,
    Whisper transcription, per-segment translation, two text artifacts).

    Conventions of the embedding.
    - A Python [str] is the list of its Unicode code points ([pystr]);
      string constants of the source are written as UTF-8 literals and
      decoded by [utf8].
    - A Python [float] is an IEEE value given by sign, integral mantissa
      and binary exponent ([pyfloat]); [format_2f] is the [:.2f] format.
    - Handlers are state-passing functions that end in a value, an
      [HTTPException] or an unhandled exception.
    - The services the handlers call (decoder, Whisper, the chat
      completion endpoint, the file store's refusal to open a path for
      writing or for reading) are fields of a [backend] record: the code
      is verified for every backend.
    - A text-mode write encodes its text as UTF-8 and raises
      [UnicodeEncodeError] on a lone surrogate ([encode_error]).
    - The order in which the store returns the rows of a query that has
      no [ORDER BY] is the store's choice, a parameter [plan].

    Outside the model: the host is POSIX ([os.path], line ends); the
    upload always has a file name and its bytes can be read; the device
    has room for what is written; a file is known by the path it was
    opened with, so the statements about files are about the paths the
    handlers build; requests are served one at a time, except for the
    sign-ups that [create_user_among] lets in between two statements of
    [create_user]. *)

From Stdlib Require Import ZArith NArith Lia Ascii String DecimalPos DecimalN.
From stdpp Require Import gmap list strings.

Local Open Scope N_scope.

(* ===================================================================== *)
(** ** Python strings *)
(* ===================================================================== *)

Module PyStr.

(** A [str] as the sequence of its code points. *)
Abbreviation pystr := (list N).

Definition byte_of (a : ascii) : N := N_of_ascii a.

(** Decoder for the UTF-8 literals of this file (well-formed input;
    a malformed tail is kept byte by byte). *)
Fixpoint utf8_bytes (bs : list N) : pystr :=
  match bs with
  | [] => []
  | b0 :: r0 =>
      if b0 <? 128 then b0 :: utf8_bytes r0
      else match r0 with
      | [] => [b0]
      | b1 :: r1 =>
          if b0 <? 224 then ((b0 - 192) * 64 + (b1 - 128)) :: utf8_bytes r1
          else match r1 with
          | [] => [b0; b1]
          | b2 :: r2 =>
              if b0 <? 240
              then ((b0 - 224) * 4096 + (b1 - 128) * 64 + (b2 - 128))
                     :: utf8_bytes r2
              else match r2 with
              | [] => [b0; b1; b2]
              | b3 :: r3 =>
                  ((b0 - 240) * 262144 + (b1 - 128) * 4096
                   + (b2 - 128) * 64 + (b3 - 128)) :: utf8_bytes r3
              end
          end
      end
  end.

Definition utf8 (s : string) : pystr :=
  utf8_bytes (map byte_of (list_ascii_of_string s)).

(** [str.isspace] on one code point: the characters Python's
    [str.strip()] removes when called without argument. *)
Definition isspace (c : N) : bool :=
  ((9 <=? c) && (c <=? 13)) || ((28 <=? c) && (c <=? 32))
  || (c =? 133) || (c =? 160) || (c =? 5760)
  || ((8192 <=? c) && (c <=? 8202))
  || (c =? 8232) || (c =? 8233) || (c =? 8239) || (c =? 8287)
  || (c =? 12288).

Fixpoint lstrip (s : pystr) : pystr :=
  match s with
  | [] => []
  | c :: r => if isspace c then lstrip r else s
  end.

Definition rstrip (s : pystr) : pystr := rev (lstrip (rev s)).

(** [s.strip()] *)
Definition strip (s : pystr) : pystr := rstrip (lstrip s).

Definition LF : N := 10.
Definition CR : N := 13.

(** What a text-mode [read()] returns for stored text: with the default
    [newline=None], the sequences CR LF and CR are read as LF. *)
Fixpoint universal_newlines (s : pystr) : pystr :=
  match s with
  | [] => []
  | c :: r =>
      if c =? CR then
        match r with
        | d :: r' => if d =? LF then LF :: universal_newlines r'
                     else LF :: universal_newlines r
        | [] => [LF]
        end
      else c :: universal_newlines r
  end.

(** Number of line terminators in a text. Every artifact the pipeline
    writes ends with LF, so this is its number of lines. *)
Definition count_lines (s : pystr) : nat :=
  length (filter (fun c => c = LF) s).

(** A text that fits on one line of a text file. *)
Definition single_line (s : pystr) : Prop := (LF ∉ s) ∧ (CR ∉ s).

(** The lines of a text as a reader meets them: the pieces a line feed
    ends, and what follows the last line feed when something does;
    [line] is the piece being read. *)
Fixpoint lines_from (line : pystr) (s : pystr) : list pystr :=
  match s with
  | [] => match line with [] => [] | _ => [line] end
  | c :: r => if c =? LF then line :: lines_from [] r
              else lines_from (line ++ [c]) r
  end.

Definition text_lines (s : pystr) : list pystr := lines_from [] s.

#[global] Instance single_line_dec (s : pystr) : Decision (single_line s).
Proof. unfold single_line. apply _. Defined.

End PyStr.

Import PyStr.

(* ===================================================================== *)
(** ** Python floats and the [:.2f] format *)
(* ===================================================================== *)

Module PyFloat.

(** An IEEE-754 value. [F_finite neg m e] is [(-1)^neg * m * 2^e]. *)
Inductive pyfloat : Type :=
| F_zero (neg : bool)
| F_inf (neg : bool)
| F_nan
| F_finite (neg : bool) (m : positive) (e : Z).

Definition is_finite (x : pyfloat) : bool :=
  match x with
  | F_zero _ | F_finite _ _ _ => true
  | F_inf _ | F_nan => false
  end.

Definition sign_str (neg : bool) : pystr := if neg then [45] else [].

(** [m * 2^e * 100] rounded to the nearest integer, ties to even: the
    digits the correctly rounded [%.2f] conversion prints. *)
Definition hundredths (m : positive) (e : Z) : N :=
  match e with
  | Z0 => Npos m * 100
  | Zpos k => Npos m * 2 ^ Npos k * 100
  | Zneg k =>
      let den := 2 ^ Npos k in
      let num := Npos m * 100 in
      let q := num / den in
      let r := num mod den in
      if (den <? 2 * r) || ((den =? 2 * r) && N.odd q) then q + 1 else q
  end.

Fixpoint uint_digits (u : Decimal.uint) : pystr :=
  match u with
  | Decimal.Nil => []
  | Decimal.D0 v => 48 :: uint_digits v
  | Decimal.D1 v => 49 :: uint_digits v
  | Decimal.D2 v => 50 :: uint_digits v
  | Decimal.D3 v => 51 :: uint_digits v
  | Decimal.D4 v => 52 :: uint_digits v
  | Decimal.D5 v => 53 :: uint_digits v
  | Decimal.D6 v => 54 :: uint_digits v
  | Decimal.D7 v => 55 :: uint_digits v
  | Decimal.D8 v => 56 :: uint_digits v
  | Decimal.D9 v => 57 :: uint_digits v
  end.

(** Decimal numeral of a natural number, without leading zeros. *)
Definition decimal (n : N) : pystr := uint_digits (N.to_uint n).

Definition two_digits (r : N) : pystr := [48 + r / 10; 48 + r mod 10].

Definition DOT : N := 46.

(** [f"{x:.2f}"] *)
Definition format_2f (x : pyfloat) : pystr :=
  match x with
  | F_nan => [110; 97; 110]
  | F_inf neg => sign_str neg ++ [105; 110; 102]
  | F_zero neg => sign_str neg ++ [48; DOT; 48; 48]
  | F_finite neg m e =>
      let h := hundredths m e in
      sign_str neg ++ decimal (h / 100) ++ DOT :: two_digits (h mod 100)
  end.

Definition is_digit (c : N) : bool := (48 <=? c) && (c <=? 57).

(** The shape [:.2f] gives every finite value: an optional minus sign,
    at least one integer digit, the point, exactly two decimals. *)
Definition two_decimals (s : pystr) : Prop :=
  exists (sign int : pystr) (d1 d2 : N),
    s = sign ++ int ++ [DOT; d1; d2]
    /\ ((sign = []) \/ (sign = [45]))
    /\ int <> []
    /\ Forall (fun c => is_digit c = true) int
    /\ is_digit d1 = true /\ is_digit d2 = true.

End PyFloat.

Import PyFloat.

(* ===================================================================== *)
(** ** Encoding text as UTF-8 *)
(* ===================================================================== *)

Module Codec.

(** A code point of the surrogate range, which UTF-8 cannot encode. *)
Definition is_surrogate (c : N) : bool := (55296 <=? c) && (c <=? 57343).

(** Text that [str.encode("utf-8")] accepts. *)
Definition encodable (s : pystr) : Prop :=
  Forall (fun c => is_surrogate c = false) s.

#[global] Instance encodable_dec (s : pystr) : Decision (encodable s).
Proof. unfold encodable. apply _. Defined.

Definition hex_digit (d : N) : N := if d <? 10 then 48 + d else 87 + d.

(** A surrogate as the message of the exception prints it: a backslash,
    [u] and four hexadecimal digits. *)
Definition u_escape (c : N) : pystr :=
  [92; 117; hex_digit (c / 4096 mod 16); hex_digit (c / 256 mod 16);
   hex_digit (c / 16 mod 16); hex_digit (c mod 16)].

(** The number of surrogates [s] starts with. *)
Fixpoint surrogate_run (s : pystr) : N :=
  match s with
  | c :: r => if is_surrogate c then 1 + surrogate_run r else 0
  | [] => 0
  end.

Definition CANNOT_ENCODE : pystr :=
  Eval vm_compute in utf8 "'utf-8' codec can't encode ".
Definition CHARACTER : pystr := Eval vm_compute in utf8 "character '".
Definition IN_POSITION : pystr := Eval vm_compute in utf8 "' in position ".
Definition CHARACTERS_IN_POSITION : pystr :=
  Eval vm_compute in utf8 "characters in position ".
Definition SURROGATES_NOT_ALLOWED : pystr :=
  Eval vm_compute in utf8 ": surrogates not allowed".

(** [str(e)] for the [UnicodeEncodeError] that encoding raises at the
    first run of surrogates, which starts at index [i] of the text whose
    rest is [s]; [None] when the rest can be encoded. *)
Fixpoint encode_error_from (i : N) (s : pystr) : option pystr :=
  match s with
  | [] => None
  | c :: r =>
      if is_surrogate c then
        let more := surrogate_run r in
        Some (CANNOT_ENCODE
              ++ (if more =? 0
                  then CHARACTER ++ u_escape c ++ IN_POSITION ++ decimal i
                  else CHARACTERS_IN_POSITION ++ decimal i ++ [45]
                       ++ decimal (i + more))
              ++ SURROGATES_NOT_ALLOWED)
      else encode_error_from (i + 1) r
  end.

(** [text.encode("utf-8")] raising: the message, if it does. *)
Definition encode_error (text : pystr) : option pystr :=
  encode_error_from 0 text.

End Codec.

Import Codec.

(* ===================================================================== *)
(** ** [os.path] on POSIX *)
(* ===================================================================== *)

Module PosixPath.

Definition SEP : N := 47.
Definition EXTSEP : N := 46.

Definition startswith_sep (b : pystr) : bool :=
  match b with
  | c :: _ => c =? SEP
  | [] => false
  end.

Definition endswith_sep (a : pystr) : bool :=
  match last a with
  | Some d => d =? SEP
  | None => false
  end.

(** [os.path.join(a, b)]: an absolute [b] replaces [a]; otherwise [b]
    is appended, after a separator unless [a] is empty or ends in one. *)
Definition join (a b : pystr) : pystr :=
  if startswith_sep b then b
  else if bool_decide (a = []) || endswith_sep a then a ++ b
  else a ++ SEP :: b.

Fixpoint rfind_from (c : N) (p : pystr) (i last_seen : Z) : Z :=
  match p with
  | [] => last_seen
  | d :: r => rfind_from c r (i + 1)%Z (if d =? c then i else last_seen)
  end.

(** [p.rfind(c)]: index of the last occurrence, or -1. *)
Definition rfind (c : N) (p : pystr) : Z := rfind_from c p 0%Z (-1)%Z.

(** [os.path.splitext(p)]: the extension starts at the last dot of the
    last component, unless only dots precede it in that component. *)
Definition splitext (p : pystr) : pystr * pystr :=
  let sepIndex := rfind SEP p in
  let dotIndex := rfind EXTSEP p in
  if (sepIndex <? dotIndex)%Z then
    let lead := take (Z.to_nat (dotIndex - (sepIndex + 1)))
                     (drop (Z.to_nat (sepIndex + 1)) p) in
    if existsb (fun c => negb (c =? EXTSEP)) lead
    then (take (Z.to_nat dotIndex) p, drop (Z.to_nat dotIndex) p)
    else (p, [])
  else (p, []).

End PosixPath.

Import PosixPath.

(* ===================================================================== *)
(** ** The speech pipeline: [upload_and_transcribe] *)
(* ===================================================================== *)

Module Pipeline.

(** One entry of [result["segments"]]. *)
Record segment : Type := Segment {
  seg_start : pyfloat;
  seg_end : pyfloat;
  seg_text : pystr
}.

(** Where an exception was raised. The handler of the source only uses
    [str(e)]; the origin is kept to state what the caller can and
    cannot learn from the response. *)
Inductive stage : Type :=
| VideoPersist
| AudioExtraction
| Transcription
| TranscriptWrite
| Translation
| TranslationWrite
| ReadBack.

#[global] Instance stage_eq_dec : EqDecision stage.
Proof. solve_decision. Defined.

Record exn : Type := Exn { origin : stage; message : pystr }.

Inductive result (A : Type) : Type :=
| Ok (a : A)
| Raise (e : exn).
Arguments Ok {A} a.
Arguments Raise {A} e.

(** What a call to an outside service does: it returns, or it raises an
    exception whose [str] is [msg]. *)
Inductive attempt (A : Type) : Type :=
| Done (a : A)
| Failed (msg : pystr).
Arguments Done {A} a.
Arguments Failed {A} msg.

Record backend : Type := Backend {
  (** [open(path, "w")] / [open(path, "wb")] raising [OSError] *)
  open_error : pystr -> option pystr;
  (** [AudioFileClip(video_path)], on the bytes stored at that path *)
  AudioFileClip : list N -> attempt unit;
  (** [audio_clip.write_audiofile(audio_path)]: the waveform bytes *)
  write_audiofile : list N -> attempt (list N);
  (** [model.transcribe(audio_path, word_timestamps=True)["segments"]] *)
  transcribe : list N -> attempt (list segment);
  (** the [n]-th [openai.ChatCompletion.create] of a run, followed by
      [response["choices"][0]["message"]["content"]] *)
  ChatCompletion : nat -> pystr -> attempt pystr;
  (** [open(path, "r", encoding="utf-8")] raising [OSError] *)
  read_error : pystr -> option pystr
}.

Inductive level : Type := INFO | ERROR.

(** The world a run acts on. A file's content is kept as the sequence
    the program wrote: bytes for ["wb"], code points for text mode (only
    text that can be encoded gets into a file, and its UTF-8 coding is
    the same on the way in and out). *)
Record state : Type := State {
  fs : gmap pystr (list N);
  log : list (level * pystr);
  (** audio clip handles opened and not yet closed *)
  open_clips : nat
}.

Definition M (A : Type) : Type := state -> result A * state.

#[global] Instance M_ret : MRet M := fun A a st => (Ok a, st).
#[global] Instance M_bind : MBind M := fun A B f m st =>
  match m st with
  | (Ok a, st') => f a st'
  | (Raise e, st') => (Raise e, st')
  end.

(** [try: body  except Exception as e: handler(str(e))] *)
Definition try_except {A} (body : M A) (handler : pystr -> M A) : M A :=
  fun st =>
    match body st with
    | (Ok a, st') => (Ok a, st')
    | (Raise e, st') => handler (message e) st'
    end.

Definition logging (l : level) (msg : pystr) : M unit :=
  fun st => (Ok tt, State (fs st) (log st ++ [(l, msg)]) (open_clips st)).

(** Entering [with open(path, "w") as f]: the file is created empty. *)
Definition open_w (be : backend) (s : stage) (path : pystr) : M unit :=
  fun st =>
    match open_error be path with
    | Some msg => (Raise (Exn s msg), st)
    | None => (Ok tt, State (<[path := []]> (fs st)) (log st) (open_clips st))
    end.

(** [f.write(data)] on the file opened with ["wb"] at [path] *)
Definition f_write_bytes (path : pystr) (data : list N) : M unit :=
  fun st =>
    (Ok tt, State (<[path := default [] (fs st !! path) ++ data]> (fs st))
                  (log st) (open_clips st)).

(** [f.write(text)] on the file opened with ["w", encoding="utf-8"] at
    [path]: the text is encoded before any of it is written, and text
    that cannot be encoded raises [UnicodeEncodeError]. *)
Definition f_write (s : stage) (path : pystr) (text : pystr) : M unit :=
  fun st =>
    match encode_error text with
    | Some msg => (Raise (Exn s msg), st)
    | None => f_write_bytes path text st
    end.

(** A file written whole by an outside tool. *)
Definition store (path : pystr) (data : list N) : M unit :=
  fun st => (Ok tt, State (<[path := data]> (fs st)) (log st) (open_clips st)).

(** [open(path, "r", encoding="utf-8").read()] *)
Definition read_text (be : backend) (s : stage) (path : pystr) : M pystr :=
  fun st =>
    match read_error be path with
    | Some msg => (Raise (Exn s msg), st)
    | None =>
        match fs st !! path with
        | Some data => (Ok (universal_newlines data), st)
        | None => (Raise (Exn s (utf8 "No such file or directory")), st)
        end
    end.

Definition read_bytes (s : stage) (path : pystr) : M (list N) :=
  fun st =>
    match fs st !! path with
    | Some data => (Ok data, st)
    | None => (Raise (Exn s (utf8 "No such file or directory")), st)
    end.

Definition call {A} (s : stage) (r : attempt A) : M A :=
  fun st =>
    match r with
    | Done a => (Ok a, st)
    | Failed msg => (Raise (Exn s msg), st)
    end.

Definition clip_opened : M unit :=
  fun st => (Ok tt, State (fs st) (log st) (S (open_clips st))).

(** [audio_clip.close()] *)
Definition clip_close : M unit :=
  fun st => (Ok tt, State (fs st) (log st) (pred (open_clips st))).

(** *** Constants of the source *)

Definition UPLOAD_FOLDER : pystr := Eval vm_compute in utf8 "uploaded_videos".
Definition AUDIO_FOLDER : pystr := Eval vm_compute in utf8 "extracted_audio".
Definition WAV : pystr := Eval vm_compute in utf8 ".wav".
Definition TRANSCRIPTION_TXT : pystr :=
  Eval vm_compute in utf8 "_transcription.txt".
Definition TRANSLATION_TXT : pystr :=
  Eval vm_compute in utf8 "_translation.txt".
Definition HEADER_KO : pystr := Eval vm_compute in utf8 "[한글번역]".
Definition HEADER_EN : pystr := Eval vm_compute in utf8 "[영어번역]".
(** the sentinel that precedes the original text of a segment whose
    translation failed *)
Definition TRANSLATION_FAILED : pystr := Eval vm_compute in utf8 "번역 실패: ".
Definition STT_FAILED : pystr := Eval vm_compute in utf8 "STT 또는 번역 실패: ".

Definition MSG_START : pystr := Eval vm_compute in utf8 "STT 및 번역 작업 시작".
Definition MSG_VIDEO_SAVED : pystr := Eval vm_compute in utf8 "동영상 저장 완료: ".
Definition MSG_AUDIO_DONE : pystr := Eval vm_compute in utf8 "오디오 추출 완료: ".
Definition MSG_WHISPER_START : pystr :=
  Eval vm_compute in utf8 "Whisper 대본 생성 시작".
Definition MSG_WHISPER_DONE : pystr :=
  Eval vm_compute in utf8 "Whisper 대본 생성 완료".
Definition MSG_KO_SAVING : pystr := Eval vm_compute in utf8 "한글 대본 저장 시작: ".
Definition MSG_KO_SAVED : pystr := Eval vm_compute in utf8 "한글 대본 저장 완료: ".
Definition MSG_CHAT_START : pystr := Eval vm_compute in utf8 "ChatGPT 번역 시작".
Definition MSG_EN_SAVED : pystr := Eval vm_compute in utf8 "영어 대본 저장 완료: ".
Definition MSG_RETURNING : pystr := Eval vm_compute in utf8 "결과 반환 시작".

(** *** Formatting *)

(** [f"[{start_time:.2f}s - {end_time:.2f}s] "] *)
Definition timing (start_time end_time : pyfloat) : pystr :=
  [91] ++ format_2f start_time ++ [115; 32; 45; 32]
       ++ format_2f end_time ++ [115; 93; 32].

(** [f"[{start_time:.2f}s - {end_time:.2f}s] {text}\n"] *)
Definition format_line (start_time end_time : pyfloat) (text : pystr)
  : pystr :=
  timing start_time end_time ++ text ++ [LF].

(** *** The transcript artifact (lines 252-258) *)

Fixpoint write_segments (path : pystr) (segments : list segment) : M unit :=
  match segments with
  | [] => mret tt
  | seg :: rest =>
      let start_time := seg_start seg in
      let end_time := seg_end seg in
      let text := seg_text seg in
      f_write TranscriptWrite path (format_line start_time end_time text) ;;
      write_segments path rest
  end.

(** *** The translation artifact (lines 267-287) *)

(** The body of the loop for the [n]-th segment: the [try] block, in
    which the call and the write can raise, and its handler, whose write
    is outside any [try] of the loop. Returns the line it wrote. *)
Definition translate_segment (be : backend) (path : pystr) (n : nat)
    (seg : segment) : M pystr :=
  let start_time := seg_start seg in
  let end_time := seg_end seg in
  let text := seg_text seg in
  try_except
    (content ← call Translation (ChatCompletion be n text);
     let translated_text := strip content in
     let translation_line := format_line start_time end_time translated_text in
     f_write Translation path translation_line ;;
     mret translation_line)
    (fun e =>
       logging ERROR (TRANSLATION_FAILED ++ e) ;;
       let translation_line :=
         format_line start_time end_time (TRANSLATION_FAILED ++ text) in
       f_write TranslationWrite path translation_line ;;
       mret translation_line).

(** The loop; [translation] is the list of the same name in the source,
    to which every line written is appended. *)
Fixpoint translate_segments (be : backend) (path : pystr) (n : nat)
    (segments : list segment) (translation : list pystr)
  : M (list pystr) :=
  match segments with
  | [] => mret translation
  | seg :: rest =>
      translation_line ← translate_segment be path n seg;
      translate_segments be path (S n) rest (translation ++ [translation_line])
  end.

(** *** The handler (lines 223-299) *)

Definition video_path_of (filename : pystr) : pystr :=
  join UPLOAD_FOLDER filename.
Definition audio_path_of (filename : pystr) : pystr :=
  join AUDIO_FOLDER ((splitext filename).1 ++ WAV).
Definition transcription_file_of (filename : pystr) : pystr :=
  join AUDIO_FOLDER ((splitext filename).1 ++ TRANSCRIPTION_TXT).
Definition english_transcription_file_of (filename : pystr) : pystr :=
  join AUDIO_FOLDER ((splitext filename).1 ++ TRANSLATION_TXT).

(** The [try] block: returns the two strings of the response. *)
Definition stt_body (be : backend) (filename : pystr) (content : list N)
  : M (pystr * pystr) :=
  logging INFO MSG_START ;;
  let video_path := video_path_of filename in
  open_w be VideoPersist video_path ;;
  f_write_bytes video_path content ;;
  logging INFO (MSG_VIDEO_SAVED ++ video_path) ;;
  let audio_path := audio_path_of filename in
  video ← read_bytes AudioExtraction video_path;
  call AudioExtraction (AudioFileClip be video) ;;
  clip_opened ;;
  audio ← call AudioExtraction (write_audiofile be video);
  store audio_path audio ;;
  clip_close ;;
  logging INFO (MSG_AUDIO_DONE ++ audio_path) ;;
  logging INFO MSG_WHISPER_START ;;
  waveform ← read_bytes Transcription audio_path;
  segments ← call Transcription (transcribe be waveform);
  logging INFO MSG_WHISPER_DONE ;;
  let transcription_file := transcription_file_of filename in
  logging INFO (MSG_KO_SAVING ++ transcription_file) ;;
  open_w be TranscriptWrite transcription_file ;;
  f_write TranscriptWrite transcription_file (HEADER_KO ++ [LF]) ;;
  write_segments transcription_file segments ;;
  logging INFO (MSG_KO_SAVED ++ transcription_file) ;;
  logging INFO MSG_CHAT_START ;;
  let translation := [HEADER_EN] in
  let english_transcription_file := english_transcription_file_of filename in
  open_w be TranslationWrite english_transcription_file ;;
  f_write TranslationWrite english_transcription_file (HEADER_EN ++ [LF]) ;;
  translate_segments be english_transcription_file 0 segments translation ;;
  logging INFO (MSG_EN_SAVED ++ english_transcription_file) ;;
  logging INFO MSG_RETURNING ;;
  transcription ← read_text be ReadBack transcription_file;
  translation_text ← read_text be ReadBack english_transcription_file;
  mret (transcription, translation_text).

(** What the caller of [/stt-video] receives. *)
Inductive response : Type :=
| JSONResponse (status_code : Z) (transcription translation : pystr)
| HTTPException (status_code : Z) (detail : pystr).

Definition upload_and_transcribe (be : backend) (filename : pystr)
    (content : list N) (st : state) : response * state :=
  match stt_body be filename content st with
  | (Ok (transcription, translation), st') =>
      (JSONResponse 200 transcription translation, st')
  | (Raise e, st') =>
      let detail := STT_FAILED ++ message e in
      (HTTPException 500 detail,
       State (fs st') (log st' ++ [(ERROR, detail)]) (open_clips st'))
  end.

(** The text of a stored file, as a text-mode [read()] gives it. *)
Definition file_text (st : state) (path : pystr) : option pystr :=
  universal_newlines <$> fs st !! path.

(** The stage at which a run failed, if it did. *)
Definition failed_at (be : backend) (filename : pystr) (content : list N)
    (st : state) : option stage :=
  match stt_body be filename content st with
  | (Ok _, _) => None
  | (Raise e, _) => Some (origin e)
  end.

End Pipeline.

Import Pipeline.

(* ===================================================================== *)
(** ** The user registry: [init_db], [create_user], [list_users],
       [read_user] *)
(* ===================================================================== *)

Module UserCreate.
Record t : Type := Make { username : pystr; password : pystr }.
End UserCreate.

Module User.
Record t : Type := Make { user_id : Z; username : pystr }.
End User.

Module Users.

Local Open Scope Z_scope.

(** A row of the table declared in [init_db]:
    [user_id INT PRIMARY KEY AUTO_INCREMENT],
    [username VARCHAR(50) NOT NULL UNIQUE],
    [password VARCHAR(255) NOT NULL]. *)
Record row : Type := Row {
  row_user_id : Z;
  row_username : pystr;
  row_password : pystr
}.

(** The table and the next value of its identity sequence. *)
Record db : Type := Db {
  users : list row;
  next_user_id : Z
}.

Definition INT_MAX : Z := 2147483647.
Definition USERNAME_WIDTH : Z := 50.
Definition PASSWORD_WIDTH : Z := 255.

(** Length of a character string as the store counts it (UTF-16 units). *)
Definition char_length (s : pystr) : Z :=
  fold_right (fun c n => (if (c <? 65536)%N then 1 else 2) + n) 0 s.

Definition has_username (name : pystr) (r : row) : bool :=
  bool_decide (row_username r = name).
Definition has_user_id (id : Z) (r : row) : bool :=
  bool_decide (row_user_id r = id).

(** [SELECT user_id FROM users WHERE username = ?] then [fetchone()] *)
Definition select_user_id_by_username (name : pystr) (d : db) : option Z :=
  row_user_id <$> find (has_username name) (users d).

(** [SELECT user_id, username FROM users WHERE user_id = ?] then
    [fetchone()] *)
Definition select_by_user_id (id : Z) (d : db) : option (Z * pystr) :=
  (fun r => (row_user_id r, row_username r)) <$> find (has_user_id id) (users d).

(** [SELECT MAX(user_id) FROM users]: [None] is SQL NULL (no rows). *)
Definition select_max_user_id (d : db) : option Z :=
  match users d with
  | [] => None
  | r :: rest => Some (fold_left Z.max (map row_user_id rest) (row_user_id r))
  end.

(** The order in which a query without [ORDER BY] returns the rows is
    up to the store (the order of whichever index it scans): [plan a b]
    says that row [a] comes before row [b]. *)
Fixpoint place (plan : row -> row -> bool) (r : row) (rows : list row)
  : list row :=
  match rows with
  | [] => [r]
  | x :: rest => if plan r x then r :: rows else x :: place plan r rest
  end.

Definition scan (plan : row -> row -> bool) (rows : list row) : list row :=
  fold_right (place plan) [] rows.

(** [SELECT user_id, username FROM users] then [fetchall()] *)
Definition select_all (plan : row -> row -> bool) (d : db)
  : list (Z * pystr) :=
  map (fun r => (row_user_id r, row_username r)) (scan plan (users d)).

(** The constraints of the table on a new row with a generated id. *)
Definition insertable (name pw : pystr) (d : db) : bool :=
  bool_decide (char_length name <= USERNAME_WIDTH)
  && bool_decide (char_length pw <= PASSWORD_WIDTH)
  && bool_decide (next_user_id d <= INT_MAX)
  && negb (existsb (has_username name) (users d))
  && negb (existsb (has_user_id (next_user_id d)) (users d)).

Definition CONSTRAINT_VIOLATION : pystr :=
  Eval vm_compute in utf8 "constraint violation".
Definition RESPONSE_VALIDATION : pystr :=
  Eval vm_compute in utf8 "response validation".

(** The identity sequence after it was asked for a value: it moves on
    when it had one to give. *)
Definition sequence_used (d : db) : Z :=
  if bool_decide (next_user_id d <= INT_MAX) then next_user_id d + 1
  else next_user_id d.

(** [INSERT INTO users (username, password) VALUES (?, ?)]: the row
    gets the next identity value; a row the table refuses raises and
    leaves the rows as they were, but the identity value it was given is
    used up. *)
Definition insert (name pw : pystr) (d : db) : attempt unit * db :=
  if insertable name pw d
  then (Done tt, Db (users d ++ [Row (next_user_id d) name pw])
                    (next_user_id d + 1))
  else (Failed CONSTRAINT_VIOLATION, Db (users d) (sequence_used d)).

(** An empty table; identity values start at 1. *)
Definition empty_db : db := Db [] 1.

Definition ALICE : pystr := Eval vm_compute in utf8 "Alice".
Definition ALICE_PW : pystr := Eval vm_compute in utf8 "alice123".
Definition BOB : pystr := Eval vm_compute in utf8 "Bob".
Definition BOB_PW : pystr := Eval vm_compute in utf8 "bob123".

(** [init_db] on an existing table: the two sample rows, inside
    [try: ... except: pass]. *)
Definition init_db (d : db) : db :=
  match insert ALICE ALICE_PW d with
  | (Failed _, d1) => d1
  | (Done _, d1) =>
      match insert BOB BOB_PW d1 with
      | (Failed _, d2) => d2
      | (Done _, d2) => d2
      end
  end.

(** How a handler ends. *)
Inductive outcome (A : Type) : Type :=
| Returned (a : A)
| HTTPError (status_code : Z) (detail : pystr)
| ServerError (msg : pystr).
Arguments Returned {A} a.
Arguments HTTPError {A} status_code detail.
Arguments ServerError {A} msg.

Definition DUPLICATE_USERNAME : pystr :=
  Eval vm_compute in utf8 "이미 사용 중인 사용자 이름입니다.".
Definition USER_NOT_FOUND : pystr :=
  Eval vm_compute in utf8 "사용자를 찾을 수 없습니다.".

(** [create_user] (lines 130-158). *)
Definition create_user (data : UserCreate.t) (d : db)
  : outcome User.t * db :=
  let row := select_user_id_by_username (UserCreate.username data) d in
  match row with
  | Some _ => (HTTPError 400 DUPLICATE_USERNAME, d)
  | None =>
      match insert (UserCreate.username data) (UserCreate.password data) d with
      | (Failed msg, d1) => (ServerError msg, d1)
      | (Done _, d1) =>
          let new_id_row := select_max_user_id d1 in
          match new_id_row with
          | Some new_id =>
              (Returned (User.Make new_id (UserCreate.username data)), d1)
          | None => (ServerError RESPONSE_VALIDATION, d1)
          end
      end
  end.

(** A sign-up request of another client, served whole. *)
Definition other_signup (d : db) (o : UserCreate.t) : db :=
  (create_user o d).2.

(** [create_user] when other requests get the sign-ups [between]
    committed after its [conn.commit()] (line 147) and before its
    [SELECT MAX(user_id)] (line 150). *)
Definition create_user_among (between : list UserCreate.t)
    (data : UserCreate.t) (d : db) : outcome User.t * db :=
  let row := select_user_id_by_username (UserCreate.username data) d in
  match row with
  | Some _ => (HTTPError 400 DUPLICATE_USERNAME, d)
  | None =>
      match insert (UserCreate.username data) (UserCreate.password data) d with
      | (Failed msg, d1) => (ServerError msg, d1)
      | (Done _, d1) =>
          let d2 := fold_left other_signup between d1 in
          let new_id_row := select_max_user_id d2 in
          match new_id_row with
          | Some new_id =>
              (Returned (User.Make new_id (UserCreate.username data)), d2)
          | None => (ServerError RESPONSE_VALIDATION, d2)
          end
      end
  end.

Definition list_users (plan : row -> row -> bool) (d : db) : list User.t :=
  map (fun r => User.Make r.1 r.2) (select_all plan d).

Definition read_user (user_id : Z) (d : db) : outcome User.t :=
  let row := select_by_user_id user_id d in
  match row with
  | None => HTTPError 404 USER_NOT_FOUND
  | Some r => Returned (User.Make r.1 r.2)
  end.

(** Every id of the table came from the identity sequence. *)
Definition db_wf (d : db) : Prop :=
  Forall (fun r => row_user_id r < next_user_id d) (users d).

Definition username_taken (name : pystr) (d : db) : Prop :=
  exists r, r ∈ users d /\ row_username r = name.

Definition user_id_present (id : Z) (d : db) : Prop :=
  exists r, r ∈ users d /\ row_user_id r = id.

(** The new row fits the table: the declared widths hold and the next
    identity value is an [INT] no row uses. *)
Definition fits (data : UserCreate.t) (d : db) : Prop :=
  char_length (UserCreate.username data) <= USERNAME_WIDTH
  /\ char_length (UserCreate.password data) <= PASSWORD_WIDTH
  /\ next_user_id d <= INT_MAX
  /\ ~ user_id_present (next_user_id d) d.

(** The row [create_user] inserts for [data] into [d]. *)
Definition new_row (data : UserCreate.t) (d : db) : row :=
  Row (next_user_id d) (UserCreate.username data) (UserCreate.password data).

End Users.

Import Users.

(* ===================================================================== *)
(** ** What the pipeline writes, as functions of the segments *)
(* ===================================================================== *)

Module Artifacts.

(** The line of the transcript artifact for one segment. *)
Definition transcript_line (seg : segment) : pystr :=
  format_line (seg_start seg) (seg_end seg) (seg_text seg).

(** How the [try] block of the loop ends for the [n]-th segment: with
    the trimmed translation written, or with the message of what the
    call or the write raised. *)
Definition translated (be : backend) (n : nat) (seg : segment)
  : attempt pystr :=
  match ChatCompletion be n (seg_text seg) with
  | Done content =>
      match encode_error (format_line (seg_start seg) (seg_end seg)
                                      (strip content)) with
      | None => Done (strip content)
      | Some msg => Failed msg
      end
  | Failed msg => Failed msg
  end.

(** The text a translated segment carries: the trimmed translation, or
    the sentinel followed by the original text. *)
Definition text_or_error (be : backend) (n : nat) (seg : segment) : pystr :=
  match translated be n seg with
  | Done translated_text => translated_text
  | Failed _ => TRANSLATION_FAILED ++ seg_text seg
  end.

(** The line of the translation artifact for the [n]-th segment. *)
Definition translation_line (be : backend) (n : nat) (seg : segment)
  : pystr :=
  format_line (seg_start seg) (seg_end seg) (text_or_error be n seg).

Fixpoint translation_lines (be : backend) (n : nat) (segs : list segment)
  : list pystr :=
  match segs with
  | [] => []
  | seg :: rest => translation_line be n seg :: translation_lines be (S n) rest
  end.

(** The error record the loop logs for the [n]-th segment, if any. *)
Definition errors_of (be : backend) (n : nat) (seg : segment)
  : list (level * pystr) :=
  match translated be n seg with
  | Done _ => []
  | Failed e => [(ERROR, TRANSLATION_FAILED ++ e)]
  end.

Fixpoint translation_errors (be : backend) (n : nat) (segs : list segment)
  : list (level * pystr) :=
  match segs with
  | [] => []
  | seg :: rest => errors_of be n seg ++ translation_errors be (S n) rest
  end.

Definition transcript_artifact (segs : list segment) : pystr :=
  HEADER_KO ++ [LF] ++ concat (map transcript_line segs).

(** The first segment whose transcript line cannot be encoded: its
    position and the message of the [UnicodeEncodeError]. *)
Fixpoint transcript_error (segs : list segment) : option (nat * pystr) :=
  match segs with
  | [] => None
  | seg :: rest =>
      match encode_error (transcript_line seg) with
      | Some msg => Some (0%nat, msg)
      | None => prod_map S id <$> transcript_error rest
      end
  end.

Definition translation_artifact (be : backend) (segs : list segment)
  : pystr :=
  HEADER_EN ++ [LF] ++ concat (translation_lines be 0 segs).

(** Nothing a run needs fails: the decoder gives [audio], Whisper gives
    [segs], the three files can be opened for writing, every line of the
    transcript can be encoded, and the two artifacts can be opened for
    reading. *)
Definition stages_ok (be : backend) (filename : pystr) (content : list N)
    (audio : list N) (segs : list segment) : Prop :=
  open_error be (video_path_of filename) = None
  /\ AudioFileClip be content = Done tt
  /\ write_audiofile be content = Done audio
  /\ transcribe be audio = Done segs
  /\ open_error be (transcription_file_of filename) = None
  /\ open_error be (english_transcription_file_of filename) = None
  /\ transcript_error segs = None
  /\ read_error be (transcription_file_of filename) = None
  /\ read_error be (english_transcription_file_of filename) = None.

(** [msg] is the message of what was raised at stage [s]: by the
    service the stage relies on, by the opening of its file, or by the
    encoding of a line of the transcript. Nothing raised inside the
    [try] of the translation loop gets out of the loop. *)
Definition stage_message (be : backend) (filename : pystr)
    (content : list N) (s : stage) (msg : pystr) : Prop :=
  match s with
  | VideoPersist => open_error be (video_path_of filename) = Some msg
  | AudioExtraction =>
      AudioFileClip be content = Failed msg
      \/ write_audiofile be content = Failed msg
  | Transcription =>
      exists audio, write_audiofile be content = Done audio
                    /\ transcribe be audio = Failed msg
  | TranscriptWrite =>
      open_error be (transcription_file_of filename) = Some msg
      \/ exists audio segs k,
           write_audiofile be content = Done audio
           /\ transcribe be audio = Done segs
           /\ transcript_error segs = Some (k, msg)
  | TranslationWrite =>
      open_error be (english_transcription_file_of filename) = Some msg
  | ReadBack =>
      read_error be (transcription_file_of filename) = Some msg
      \/ read_error be (english_transcription_file_of filename) = Some msg
  | Translation => False
  end.

Definition fs_video (filename : pystr) (content : list N)
    (m : gmap pystr (list N)) : gmap pystr (list N) :=
  <[video_path_of filename := content]> m.

Definition fs_audio (filename : pystr) (content audio : list N)
    (m : gmap pystr (list N)) : gmap pystr (list N) :=
  <[audio_path_of filename := audio]> (fs_video filename content m).

Definition fs_transcript (filename : pystr) (content audio : list N)
    (segs : list segment) (m : gmap pystr (list N)) : gmap pystr (list N) :=
  <[transcription_file_of filename := transcript_artifact segs]>
    (fs_audio filename content audio m).

(** The files when the transcript loop stopped at segment [k]. *)
Definition fs_transcript_cut (filename : pystr) (content audio : list N)
    (segs : list segment) (k : nat) (m : gmap pystr (list N))
  : gmap pystr (list N) :=
  fs_transcript filename content audio (take k segs) m.

Definition fs_translation (be : backend) (filename : pystr)
    (content audio : list N) (segs : list segment)
    (m : gmap pystr (list N)) : gmap pystr (list N) :=
  <[english_transcription_file_of filename := translation_artifact be segs]>
    (fs_transcript filename content audio segs m).

(** The ways a run of the [try] block from [st] can end: one
    constructor per point where it can stop, with the files and the
    clip handles it leaves behind. *)
Inductive run_case (be : backend) (filename : pystr) (content : list N)
    (st : state) : result (pystr * pystr) * state -> Prop :=
| run_video_refused msg st' :
    open_error be (video_path_of filename) = Some msg ->
    fs st' = fs st ->
    open_clips st' = open_clips st ->
    run_case be filename content st (Raise (Exn VideoPersist msg), st')
| run_decode_failed msg st' :
    open_error be (video_path_of filename) = None ->
    AudioFileClip be content = Failed msg ->
    fs st' = fs_video filename content (fs st) ->
    open_clips st' = open_clips st ->
    run_case be filename content st (Raise (Exn AudioExtraction msg), st')
| run_audio_write_failed msg st' :
    open_error be (video_path_of filename) = None ->
    AudioFileClip be content = Done tt ->
    write_audiofile be content = Failed msg ->
    fs st' = fs_video filename content (fs st) ->
    open_clips st' = S (open_clips st) ->
    run_case be filename content st (Raise (Exn AudioExtraction msg), st')
| run_transcribe_failed audio msg st' :
    open_error be (video_path_of filename) = None ->
    AudioFileClip be content = Done tt ->
    write_audiofile be content = Done audio ->
    transcribe be audio = Failed msg ->
    fs st' = fs_audio filename content audio (fs st) ->
    open_clips st' = open_clips st ->
    run_case be filename content st (Raise (Exn Transcription msg), st')
| run_transcript_refused audio segs msg st' :
    open_error be (video_path_of filename) = None ->
    AudioFileClip be content = Done tt ->
    write_audiofile be content = Done audio ->
    transcribe be audio = Done segs ->
    open_error be (transcription_file_of filename) = Some msg ->
    fs st' = fs_audio filename content audio (fs st) ->
    open_clips st' = open_clips st ->
    run_case be filename content st (Raise (Exn TranscriptWrite msg), st')
| run_transcript_unencodable audio segs k msg st' :
    open_error be (video_path_of filename) = None ->
    AudioFileClip be content = Done tt ->
    write_audiofile be content = Done audio ->
    transcribe be audio = Done segs ->
    open_error be (transcription_file_of filename) = None ->
    transcript_error segs = Some (k, msg) ->
    fs st' = fs_transcript_cut filename content audio segs k (fs st) ->
    open_clips st' = open_clips st ->
    run_case be filename content st (Raise (Exn TranscriptWrite msg), st')
| run_translation_refused audio segs msg st' :
    open_error be (video_path_of filename) = None ->
    AudioFileClip be content = Done tt ->
    write_audiofile be content = Done audio ->
    transcribe be audio = Done segs ->
    open_error be (transcription_file_of filename) = None ->
    transcript_error segs = None ->
    open_error be (english_transcription_file_of filename) = Some msg ->
    fs st' = fs_transcript filename content audio segs (fs st) ->
    open_clips st' = open_clips st ->
    run_case be filename content st (Raise (Exn TranslationWrite msg), st')
| run_transcript_unreadable audio segs msg st' :
    open_error be (video_path_of filename) = None ->
    AudioFileClip be content = Done tt ->
    write_audiofile be content = Done audio ->
    transcribe be audio = Done segs ->
    open_error be (transcription_file_of filename) = None ->
    transcript_error segs = None ->
    open_error be (english_transcription_file_of filename) = None ->
    read_error be (transcription_file_of filename) = Some msg ->
    fs st' = fs_translation be filename content audio segs (fs st) ->
    open_clips st' = open_clips st ->
    run_case be filename content st (Raise (Exn ReadBack msg), st')
| run_translation_unreadable audio segs msg st' :
    open_error be (video_path_of filename) = None ->
    AudioFileClip be content = Done tt ->
    write_audiofile be content = Done audio ->
    transcribe be audio = Done segs ->
    open_error be (transcription_file_of filename) = None ->
    transcript_error segs = None ->
    open_error be (english_transcription_file_of filename) = None ->
    read_error be (transcription_file_of filename) = None ->
    read_error be (english_transcription_file_of filename) = Some msg ->
    fs st' = fs_translation be filename content audio segs (fs st) ->
    open_clips st' = open_clips st ->
    run_case be filename content st (Raise (Exn ReadBack msg), st')
| run_completed audio segs st' :
    stages_ok be filename content audio segs ->
    fs st' = fs_translation be filename content audio segs (fs st) ->
    open_clips st' = open_clips st ->
    run_case be filename content st
      (Ok (universal_newlines (transcript_artifact segs),
           universal_newlines (translation_artifact be segs)), st').

End Artifacts.

Import Artifacts.

(* ===================================================================== *)
(** ** Concrete runs *)
(* ===================================================================== *)

Module Scenarios.

Definition st0 : state := State ∅ [] 0.

Definition CLIP_MP4 : pystr := Eval vm_compute in utf8 "clip.mp4".
Definition VIDEO : list N := [0; 0; 0; 24; 102; 116; 121; 112].
Definition WAVEFORM : list N := [82; 73; 70; 70].

(** 0.00 s - 2.50 s, 2.50 s - 5.00 s, 5.00 s - 7.25 s *)
Definition TEXT0 : pystr := Eval vm_compute in utf8 " 안녕하세요".
Definition TEXT1 : pystr := Eval vm_compute in utf8 " 감사합니다".
Definition TEXT2 : pystr := Eval vm_compute in utf8 " 안녕히 가세요".
Definition SEG0 : segment :=
  Segment (F_zero false) (F_finite false 5 (-1)) TEXT0.
Definition SEG1 : segment :=
  Segment (F_finite false 5 (-1)) (F_finite false 5 0) TEXT1.
Definition SEG2 : segment :=
  Segment (F_finite false 5 0) (F_finite false 29 (-2)) TEXT2.

Definition HELLO : pystr := Eval vm_compute in utf8 "Hello.".
Definition GOODBYE : pystr := Eval vm_compute in utf8 "Goodbye.".
Definition RATE_LIMIT : pystr := Eval vm_compute in utf8 "Rate limit reached".
Definition NO_MEMORY : pystr :=
  Eval vm_compute in utf8 "[Errno 12] Cannot allocate memory".
Definition BROKEN_PIPE : pystr := Eval vm_compute in utf8 "[Errno 32] Broken pipe".
Definition NO_DURATION : pystr :=
  Eval vm_compute in utf8 "MoviePy error: failed to read the duration of file".

(** Every service answers, except the translation of the second
    segment; the answers come padded with white space. *)
Definition be_second_fails : backend :=
  Backend (fun _ => None) (fun _ => Done tt) (fun _ => Done WAVEFORM)
          (fun _ => Done [SEG0; SEG1; SEG2])
          (fun n _ =>
             match n with
             | 0%nat => Done ([32] ++ HELLO ++ [LF])
             | 1%nat => Failed RATE_LIMIT
             | _ => Done ([LF] ++ GOODBYE ++ [32; 32])
             end)
          (fun _ => None).

(** The same, but the answer for the third segment ends in half of a
    surrogate pair (U+D83D alone), as a JSON answer can carry it. *)
Definition HALF_PAIR : N := 55357.
Definition be_surrogate_answer : backend :=
  Backend (fun _ => None) (fun _ => Done tt) (fun _ => Done WAVEFORM)
          (fun _ => Done [SEG0; SEG1; SEG2])
          (fun n _ =>
             match n with
             | 0%nat => Done ([32] ++ HELLO ++ [LF])
             | 1%nat => Failed RATE_LIMIT
             | _ => Done (GOODBYE ++ [HALF_PAIR])
             end)
          (fun _ => None).

(** One segment, translated into an answer with a carriage return in
    it. *)
Definition be_cr_answer : backend :=
  Backend (fun _ => None) (fun _ => Done tt) (fun _ => Done WAVEFORM)
          (fun _ => Done [SEG0])
          (fun _ _ => Done (HELLO ++ [CR] ++ GOODBYE))
          (fun _ => None).

(** Whisper gives a second segment whose text holds a lone surrogate. *)
Definition SEG_BAD : segment :=
  Segment (F_finite false 5 (-1)) (F_finite false 5 0) (TEXT1 ++ [HALF_PAIR]).
Definition be_surrogate_text : backend :=
  Backend (fun _ => None) (fun _ => Done tt) (fun _ => Done WAVEFORM)
          (fun _ => Done [SEG0; SEG_BAD; SEG2])
          (fun _ _ => Done HELLO)
          (fun _ => None).

Definition PERMISSION_DENIED : pystr :=
  Eval vm_compute in utf8 "[Errno 13] Permission denied".

(** The translation can be written but not read back. *)
Definition be_unreadable : backend :=
  Backend (fun _ => None) (fun _ => Done tt) (fun _ => Done WAVEFORM)
          (fun _ => Done [SEG0])
          (fun _ _ => Done HELLO)
          (fun path =>
             if bool_decide (path = english_transcription_file_of CLIP_MP4)
             then Some PERMISSION_DENIED else None).

(** One segment, translated into an answer of two lines. *)
Definition be_two_line_answer : backend :=
  Backend (fun _ => None) (fun _ => Done tt) (fun _ => Done WAVEFORM)
          (fun _ => Done [SEG0])
          (fun _ _ => Done (HELLO ++ [LF] ++ GOODBYE))
          (fun _ => None).

(** The decoder cannot start. *)
Definition be_decoder_down : backend :=
  Backend (fun _ => None) (fun _ => Failed NO_MEMORY)
          (fun _ => Done WAVEFORM) (fun _ => Done [SEG0])
          (fun _ _ => Done HELLO) (fun _ => None).

(** Whisper cannot start, with the same message. *)
Definition be_whisper_down : backend :=
  Backend (fun _ => None) (fun _ => Done tt) (fun _ => Done WAVEFORM)
          (fun _ => Failed NO_MEMORY) (fun _ _ => Done HELLO)
          (fun _ => None).

(** The clip opens, but writing the waveform fails. *)
Definition be_audio_write_fails : backend :=
  Backend (fun _ => None) (fun _ => Done tt) (fun _ => Failed BROKEN_PIPE)
          (fun _ => Done [SEG0]) (fun _ _ => Done HELLO) (fun _ => None).

(** A decoder that finds nothing to read in an empty file. *)
Definition be_rejects_empty : backend :=
  Backend (fun _ => None)
          (fun video => match video with
                        | [] => Failed NO_DURATION
                        | _ => Done tt
                        end)
          (fun _ => Done WAVEFORM) (fun _ => Done [SEG0])
          (fun _ _ => Done HELLO) (fun _ => None).

(** Sign-up requests. *)
Definition CAROL : UserCreate.t :=
  Eval vm_compute in UserCreate.Make (utf8 "Carol") (utf8 "carol123").
Definition DAVE : UserCreate.t :=
  Eval vm_compute in UserCreate.Make (utf8 "Dave") (utf8 "dave123").
(** a user name of 51 characters *)
Definition LONG_NAME : UserCreate.t :=
  UserCreate.Make (repeat 97 51) [112; 119].

(** The table after [/init]: Alice (1) and Bob (2). *)
Definition db0 : db := Eval vm_compute in init_db empty_db.

End Scenarios.

(* ===================================================================== *)
(** ** Statements that do not hold of the code, as the specification
       words them *)
(* ===================================================================== *)

Module Stated.

(** A failing call for segment [k], the only one that fails, leaves the
    run a success with one line per segment: the sentinel line for
    segment [k], the trimmed translation for every other segment. *)
Definition failure_isolated (be : backend) (filename : pystr)
    (content : list N) (st : state) : Prop :=
  forall audio segs k seg_k e,
    stages_ok be filename content audio segs ->
    segs !! k = Some seg_k ->
    ChatCompletion be k (seg_text seg_k) = Failed e ->
    (forall j seg_j, j <> k -> segs !! j = Some seg_j ->
                     exists c, ChatCompletion be j (seg_text seg_j) = Done c) ->
    exists (st' : state) (lines : list pystr) (t tr : pystr),
      upload_and_transcribe be filename content st
      = (JSONResponse 200 t tr, st')
      /\ fs st' !! english_transcription_file_of filename
         = Some (HEADER_EN ++ [LF] ++ concat lines)
      /\ length lines = length segs
      /\ lines !! k
         = Some (timing (seg_start seg_k) (seg_end seg_k)
                 ++ (TRANSLATION_FAILED ++ seg_text seg_k) ++ [LF])
      /\ (forall j seg_j c,
            j <> k ->
            segs !! j = Some seg_j ->
            ChatCompletion be j (seg_text seg_j) = Done c ->
            lines !! j
            = Some (timing (seg_start seg_j) (seg_end seg_j)
                    ++ strip c ++ [LF])).

(** A line in the canonical format
    [[{start:.2f}s - {end:.2f}s] {text}]. *)
Definition canonical (l : pystr) : Prop :=
  exists (start_time end_time : pyfloat) (text : pystr),
    l = timing start_time end_time ++ text.

(** Each artifact of a completed run reads as its header line followed
    by exactly one line per segment, every one in the canonical
    format. *)
Definition one_canonical_line_per_segment (be : backend) (filename : pystr)
    (content : list N) (st : state) : Prop :=
  forall audio segs,
    stages_ok be filename content audio segs ->
    let st' := (upload_and_transcribe be filename content st).2 in
    exists lines_t lines_tr : list pystr,
      text_lines <$> file_text st' (transcription_file_of filename)
      = Some (HEADER_KO :: lines_t)
      /\ text_lines <$> file_text st' (english_transcription_file_of filename)
         = Some (HEADER_EN :: lines_tr)
      /\ length lines_t = length segs
      /\ length lines_tr = length segs
      /\ Forall canonical (lines_t ++ lines_tr).

(** The strings of a success response are the contents of the two
    files. *)
Definition response_is_file_contents (be : backend) (filename : pystr)
    (content : list N) (st : state) : Prop :=
  forall (st' : state) (code : Z) (t tr : pystr),
    upload_and_transcribe be filename content st
    = (JSONResponse code t tr, st') ->
    fs st' !! transcription_file_of filename = Some t
    /\ fs st' !! english_transcription_file_of filename = Some tr.


(** Failures at different stages give different responses. *)
Definition stage_named (be1 be2 : backend) (filename : pystr)
    (content : list N) (st : state) : Prop :=
  forall s1 s2,
    failed_at be1 filename content st = Some s1 ->
    failed_at be2 filename content st = Some s2 ->
    s1 <> s2 ->
    (upload_and_transcribe be1 filename content st).1
    <> (upload_and_transcribe be2 filename content st).1.

(** An empty upload is refused before any stage runs: the run fails,
    not at the decoder, and writes no file. *)
Definition empty_upload_rejected (be : backend) (filename : pystr)
    (st : state) : Prop :=
  (exists code detail,
      (upload_and_transcribe be filename [] st).1 = HTTPException code detail)
  /\ failed_at be filename [] st <> Some AudioExtraction
  /\ fs (upload_and_transcribe be filename [] st).2 = fs st.


End Stated.

(* ===================================================================== *)
(** ** The other upload route: [upload_video] *)
(* ===================================================================== *)

Module Upload.

Definition FILE_ : pystr := Eval vm_compute in utf8 "파일 ".
Definition UPLOAD_DONE : pystr := Eval vm_compute in utf8 " 업로드 완료".
Definition UPLOAD_FAILED : pystr := Eval vm_compute in utf8 "업로드 실패: ".

(** What the caller of [/upload-video] receives. *)
Inductive upload_response : Type :=
| UploadJSON (status_code : Z) (message : pystr)
| UploadHTTPException (status_code : Z) (detail : pystr).

(** The [try] block of [upload_video] (lines 207-215): the message of
    the response. *)
Definition upload_body (be : backend) (filename : pystr) (content : list N)
  : M pystr :=
  let file_path := join UPLOAD_FOLDER filename in
  open_w be VideoPersist file_path ;;
  f_write_bytes file_path content ;;
  mret (FILE_ ++ filename ++ UPLOAD_DONE).

(** [upload_video] (lines 202-217). *)
Definition upload_video (be : backend) (filename : pystr) (content : list N)
    (st : state) : upload_response * state :=
  match upload_body be filename content st with
  | (Ok message, st') => (UploadJSON 200 message, st')
  | (Raise e, st') =>
      (UploadHTTPException 500 (UPLOAD_FAILED ++ message e), st')
  end.

End Upload.

Import Upload.

(* ===================================================================== *)
(** ** Descriptions used by the further properties *)
(* ===================================================================== *)

Module Described.

(** A table as sign-ups build it: every id came from the sequence, no id
    and no user name occurs twice. *)
Definition db_ok (d : db) : Prop :=
  db_wf d
  /\ NoDup (map row_user_id (users d))
  /\ NoDup (map row_username (users d)).

(** The user a row stands for in a response. *)
Definition user_of (r : row) : User.t :=
  User.Make (row_user_id r) (row_username r).

(** The records a completed run adds to the log. *)
Definition completed_log (be : backend) (filename : pystr)
    (segs : list segment) : list (level * pystr) :=
  [(INFO, MSG_START);
   (INFO, MSG_VIDEO_SAVED ++ video_path_of filename);
   (INFO, MSG_AUDIO_DONE ++ audio_path_of filename);
   (INFO, MSG_WHISPER_START);
   (INFO, MSG_WHISPER_DONE);
   (INFO, MSG_KO_SAVING ++ transcription_file_of filename);
   (INFO, MSG_KO_SAVED ++ transcription_file_of filename);
   (INFO, MSG_CHAT_START)]
  ++ translation_errors be 0 segs
  ++ [(INFO, MSG_EN_SAVED ++ english_transcription_file_of filename);
      (INFO, MSG_RETURNING)].

Definition is_error (r : level * pystr) : bool :=
  match r.1 with
  | ERROR => true
  | INFO => false
  end.

(** The line of a segment whose translation failed. *)
Definition sentinel_line (seg : segment) : pystr :=
  timing (seg_start seg) (seg_end seg)
  ++ (TRANSLATION_FAILED ++ seg_text seg) ++ [LF].

(** File names given as absolute paths. *)
Definition ABS_MP4 : pystr := Eval vm_compute in utf8 "/srv/clip.mp4".

(** Every translation call fails. *)
Definition be_chat_down : backend :=
  Backend (fun _ => None) (fun _ => Done tt)
          (fun _ => Done Scenarios.WAVEFORM)
          (fun _ => Done [Scenarios.SEG0; Scenarios.SEG1])
          (fun _ _ => Failed Scenarios.RATE_LIMIT)
          (fun _ => None).

(** Whisper hears nothing. *)
Definition be_silence : backend :=
  Backend (fun _ => None) (fun _ => Done tt)
          (fun _ => Done Scenarios.WAVEFORM)
          (fun _ => Done [])
          (fun _ _ => Done Scenarios.HELLO)
          (fun _ => None).

(** The translation file cannot be opened; everything before works. *)
Definition be_translation_refused : backend :=
  Backend (fun path =>
             if bool_decide
                  (path = english_transcription_file_of Scenarios.CLIP_MP4)
             then Some Scenarios.NO_MEMORY else None)
          (fun _ => Done tt)
          (fun _ => Done Scenarios.WAVEFORM)
          (fun _ => Done [Scenarios.SEG0])
          (fun _ _ => Done Scenarios.HELLO)
          (fun _ => None).

(** The number a string of decimal digits denotes. *)
Definition digits_value (s : pystr) : N :=
  fold_left (fun acc c => 10 * acc + (c - 48)) s 0.

(** The order of the index on the user name: the store may answer a
    query that has no [ORDER BY] from it. *)
Definition by_username (a b : row) : bool :=
  bool_decide (lexico (row_username a) (row_username b)).

(** A table holding Alice alone: Bob's row was deleted, or never made. *)
Definition ALICE_ONLY : db := Db [Row 1%Z ALICE ALICE_PW] 2%Z.

(** A second request for Carol's user name, with another password. *)
Definition CAROL_AGAIN : UserCreate.t :=
  UserCreate.Make (UserCreate.username Scenarios.CAROL) [120; 121; 122].

End Described.

Import Described.

(* ===================================================================== *)
(** ** Facts about strings and formats *)
(* ===================================================================== *)

Module PyStrFacts.

Lemma count_lines_app (s t : pystr) :
  count_lines (s ++ t) = (count_lines s + count_lines t)%nat.
Proof. unfold count_lines. by rewrite filter_app, length_app. Qed.

Lemma count_lines_no_LF (s : pystr) : LF ∉ s -> count_lines s = 0%nat.
Proof.
  unfold count_lines. induction s as [|c s IH]; intros H; [done|].
  rewrite not_elem_of_cons in H. destruct H as [Hc Hs].
  rewrite filter_cons. destruct (decide (c = LF)); [congruence|]. by apply IH.
Qed.

Lemma universal_newlines_id (s : pystr) :
  CR ∉ s -> universal_newlines s = s.
Proof.
  induction s as [|c s IH]; intros H; [done|].
  rewrite not_elem_of_cons in H. destruct H as [Hc Hs]. simpl.
  destruct (N.eqb_spec c CR); [congruence|]. by rewrite IH.
Qed.

Lemma single_line_app (s t : pystr) :
  single_line s -> single_line t -> single_line (s ++ t).
Proof.
  intros [H1 H2] [H3 H4]. unfold single_line. by rewrite !not_elem_of_app.
Qed.

(** Text made of characters from the space upwards has no line break. *)
Lemma single_line_chars (s : pystr) :
  Forall (fun c => 32 <= c) s -> single_line s.
Proof.
  intros H. rewrite Forall_forall in H.
  split; intros Hin; apply H in Hin; unfold LF, CR in Hin; lia.
Qed.

(** Reading on from inside a line: the line ends at the next line
    feed. *)
Lemma lines_from_line (l r : pystr) :
  forall line : pystr,
    LF ∉ l -> lines_from line (l ++ LF :: r) = (line ++ l) :: lines_from [] r.
Proof.
  induction l as [|c l IH]; intros line H; simpl.
  - by rewrite app_nil_r.
  - rewrite not_elem_of_cons in H. destruct H as [Hc Hl].
    destruct (N.eqb_spec c LF); [congruence|].
    rewrite IH by done. by rewrite <- app_assoc.
Qed.

(** Records that hold no line feed but the one that ends them are the
    lines of their concatenation. *)
Lemma lines_from_records (bodies : list pystr) :
  Forall (fun b => LF ∉ b) bodies ->
  lines_from [] (concat (map (fun b => b ++ [LF]) bodies)) = bodies.
Proof.
  induction 1 as [|b bodies Hb _ IH]; simpl; [done|].
  rewrite <- app_assoc. simpl. rewrite lines_from_line by done.
  simpl. by f_equal.
Qed.

Lemma text_lines_records (header : pystr) (bodies : list pystr) :
  LF ∉ header ->
  Forall (fun b => LF ∉ b) bodies ->
  text_lines (header ++ [LF] ++ concat (map (fun b => b ++ [LF]) bodies))
  = header :: bodies.
Proof.
  intros Hh Hb. unfold text_lines. simpl.
  rewrite lines_from_line by done. simpl. by rewrite lines_from_records.
Qed.

(** [lstrip] removes a prefix of white space and stops at the first
    character that is not. *)
Lemma lstrip_spec (s : pystr) :
  exists pre,
    s = pre ++ lstrip s
    /\ Forall (fun c => isspace c = true) pre
    /\ (forall c, head (lstrip s) = Some c -> isspace c = false).
Proof.
  induction s as [|c s (pre & Hs & Hpre & Hhd)]; simpl.
  - exists []. repeat split; [constructor|discriminate].
  - destruct (isspace c) eqn:Hc.
    + exists (c :: pre). simpl. split; [by rewrite <- Hs|].
      split; [by constructor|done].
    + exists []. repeat split; [constructor|]. by intros ? [= <-].
Qed.

(** [strip] keeps the part of the text between its first and its last
    character that is not white space. *)
Lemma strip_trimmed (s : pystr) :
  exists pre post,
    s = pre ++ strip s ++ post
    /\ Forall (fun c => isspace c = true) pre
    /\ Forall (fun c => isspace c = true) post
    /\ (forall c, head (strip s) = Some c -> isspace c = false)
    /\ (forall c, last (strip s) = Some c -> isspace c = false).
Proof.
  destruct (lstrip_spec s) as (pre & Hs & Hpre & Hhd).
  destruct (lstrip_spec (rev (lstrip s))) as (tl & Hr & Htl & Hlast).
  unfold strip, rstrip. set (u := lstrip s) in *.
  set (k := lstrip (rev u)) in *.
  assert (Hu : u = rev k ++ rev tl).
  { rewrite <- rev_app_distr, <- Hr. by rewrite rev_involutive. }
  exists pre, (rev tl). split; [by rewrite <- Hu|].
  split; [done|]. split; [by apply Forall_rev|]. split.
  - intros c Hc. apply Hhd. rewrite Hu.
    destruct (rev k); [discriminate|]. exact Hc.
  - intros c Hc. apply Hlast.
    destruct k as [|x k']; [discriminate|].
    simpl in Hc. by rewrite last_snoc in Hc.
Qed.

End PyStrFacts.

Import PyStrFacts.

Module FormatFacts.

Lemma is_digit_range (c : N) : is_digit c = true <-> 48 <= c <= 57.
Proof. unfold is_digit. by rewrite andb_true_iff, !N.leb_le. Qed.

Lemma uint_digits_digit (u : Decimal.uint) :
  Forall (fun c => is_digit c = true) (uint_digits u).
Proof. induction u; simpl; constructor; done. Qed.

Lemma uint_digits_nonempty (u : Decimal.uint) :
  u <> Decimal.Nil -> uint_digits u <> [].
Proof. by destruct u. Qed.

Lemma decimal_digit (n : N) : Forall (fun c => is_digit c = true) (decimal n).
Proof. apply uint_digits_digit. Qed.

Lemma decimal_nonempty (n : N) : decimal n <> [].
Proof.
  unfold decimal. apply uint_digits_nonempty. destruct n as [|p]; simpl.
  - discriminate.
  - apply Unsigned.to_uint_nonnil.
Qed.

Lemma two_digits_digit (r : N) :
  r < 100 -> is_digit (48 + r / 10) = true /\ is_digit (48 + r mod 10) = true.
Proof.
  intros Hr. rewrite !is_digit_range.
  assert (r / 10 < 10) by (apply N.Div0.div_lt_upper_bound; lia).
  assert (r mod 10 < 10) by (apply N.mod_lt; lia).
  generalize dependent (r / 10). generalize dependent (r mod 10). lia.
Qed.

(** [:.2f] prints every finite value with exactly two decimals. *)
Lemma format_2f_two_decimals (x : pyfloat) :
  is_finite x = true -> two_decimals (format_2f x).
Proof.
  destruct x as [neg|neg| |neg m e]; try discriminate; intros _.
  - exists (sign_str neg), [48], 48, 48. repeat split; try done.
    + destruct neg; auto.
    + by repeat constructor.
  - set (h := hundredths m e).
    destruct (two_digits_digit (h mod 100)) as [H1 H2];
      [apply N.mod_lt; lia|].
    exists (sign_str neg), (decimal (h / 100)),
      (48 + (h mod 100) / 10), (48 + (h mod 100) mod 10).
    repeat split; try done.
    + destruct neg; auto.
    + apply decimal_nonempty.
    + apply decimal_digit.
Qed.

(** Every character [:.2f] prints is at or above the minus sign. *)
Lemma format_2f_chars (x : pyfloat) : Forall (fun c => 45 <= c) (format_2f x).
Proof.
  assert (Hs : forall neg, Forall (fun c => 45 <= c) (sign_str neg))
    by (intros []; simpl; repeat (constructor; try lia)).
  destruct x as [neg|neg| |neg m e]; simpl.
  - apply Forall_app; split; [apply Hs|].
    unfold DOT. repeat (constructor; try lia).
  - apply Forall_app; split; [apply Hs|]. repeat (constructor; try lia).
  - repeat (constructor; try lia).
  - apply Forall_app; split; [apply Hs|]. apply Forall_app; split.
    + eapply Forall_impl; [apply decimal_digit|]. intros c Hc.
      apply is_digit_range in Hc. lia.
    + unfold two_digits, DOT.
      generalize (hundredths m e mod 100 / 10),
        ((hundredths m e mod 100) mod 10).
      intros a b. repeat (constructor; try lia).
Qed.

(** No output of [:.2f] contains a line break. *)
Lemma format_2f_single_line (x : pyfloat) : single_line (format_2f x).
Proof.
  apply single_line_chars. eapply Forall_impl; [apply format_2f_chars|].
  intros c Hc. simpl in Hc. lia.
Qed.

(** The hundredths printed are the nearest to the value, which is
    [m / 2^k] for a negative exponent [-k]: the error is at most half
    a hundredth. *)
Lemma hundredths_nearest (m k : positive) :
  let h := hundredths m (Zneg k) in
  let den := 2 ^ Npos k in
  2 * (h * den) <= 2 * (Npos m * 100) + den
  /\ 2 * (Npos m * 100) <= 2 * (h * den) + den.
Proof.
  cbv zeta. unfold hundredths.
  set (den := 2 ^ N.pos k). set (num := N.pos m * 100).
  assert (Hden : den <> 0) by (apply N.pow_nonzero; lia).
  pose proof (N.div_mod num den Hden) as Hdm.
  pose proof (N.mod_lt num den Hden) as Hlt.
  set (q := num / den) in *. set (r := num mod den) in *.
  clearbody q r den num.
  destruct ((den <? 2 * r) || ((den =? 2 * r) && N.odd q)) eqn:E.
  - apply orb_true_iff in E.
    rewrite N.ltb_lt, andb_true_iff, N.eqb_eq in E. nia.
  - apply orb_false_iff in E. rewrite N.ltb_ge in E. nia.
Qed.

(** For a non-negative exponent the value is a whole number and the
    hundredths are exact. *)
Lemma hundredths_exact (m : positive) (e : Z) :
  (0 <= e)%Z -> hundredths m e = Npos m * 2 ^ Z.to_N e * 100.
Proof.
  destruct e as [|k|k]; intros He; try lia; simpl; [|done].
  by rewrite N.mul_1_r.
Qed.

End FormatFacts.

Import FormatFacts.

(* ===================================================================== *)
(** ** The two writing loops *)
(* ===================================================================== *)

Module CodecFacts.

Lemma encode_error_from_None (s : pystr) :
  forall i : N, encode_error_from i s = None <-> encodable s.
Proof.
  unfold encodable. induction s as [|c s IH]; intros i; simpl.
  - split; [constructor|done].
  - rewrite Forall_cons. destruct (is_surrogate c).
    + split; [discriminate|]. by intros [? _].
    + rewrite IH. tauto.
Qed.

(** Encoding fails exactly on text that holds a surrogate. *)
Lemma encode_error_None (s : pystr) : encode_error s = None <-> encodable s.
Proof. apply encode_error_from_None. Qed.

Lemma encodable_app (s t : pystr) :
  encodable (s ++ t) <-> encodable s /\ encodable t.
Proof. apply Forall_app. Qed.

Lemma encodable_below (s : pystr) :
  Forall (fun c => c < 55296) s -> encodable s.
Proof.
  intros H. eapply Forall_impl; [exact H|]. intros c Hc. simpl in Hc.
  unfold is_surrogate. apply andb_false_iff. left. by apply N.leb_gt.
Qed.

(** Every character [:.2f] prints is an ASCII character. *)
Lemma format_2f_ascii (x : pyfloat) : Forall (fun c => c < 128) (format_2f x).
Proof.
  assert (Hs : forall neg, Forall (fun c => c < 128) (sign_str neg))
    by (intros []; simpl; repeat (constructor; try lia)).
  destruct x as [neg|neg| |neg m e]; simpl.
  - apply Forall_app; split; [apply Hs|].
    unfold DOT. repeat (constructor; try lia).
  - apply Forall_app; split; [apply Hs|]. repeat (constructor; try lia).
  - repeat (constructor; try lia).
  - apply Forall_app; split; [apply Hs|]. apply Forall_app; split.
    + eapply Forall_impl; [apply decimal_digit|]. intros c Hc.
      apply is_digit_range in Hc. lia.
    + destruct (two_digits_digit (hundredths m e mod 100)) as [H1 H2];
        [apply N.mod_lt; lia|].
      apply is_digit_range in H1, H2. unfold two_digits, DOT.
      repeat (constructor; try lia).
Qed.

Lemma timing_encodable (s e : pyfloat) : encodable (timing s e).
Proof.
  apply encodable_below. unfold timing.
  repeat (apply Forall_app; split);
    try (eapply Forall_impl; [apply format_2f_ascii|]; simpl; intros; lia);
    repeat (constructor; try lia).
Qed.

(** A formatted line can be encoded exactly when its text can. *)
Lemma format_line_encodable (s e : pyfloat) (text : pystr) :
  encode_error (format_line s e text) = None <-> encodable text.
Proof.
  rewrite encode_error_None. unfold format_line.
  rewrite !encodable_app. pose proof (timing_encodable s e).
  assert (encodable [LF]) by (by repeat constructor).
  tauto.
Qed.

Lemma sentinel_encodable (text : pystr) :
  encodable (TRANSLATION_FAILED ++ text) <-> encodable text.
Proof.
  rewrite encodable_app.
  assert (encodable TRANSLATION_FAILED)
    by (apply (bool_decide_unpack _); by vm_compute).
  tauto.
Qed.

End CodecFacts.

Import CodecFacts.

Module LoopFacts.

Lemma state_eta (st : state) :
  State (fs st) (log st) (open_clips st) = st.
Proof. by destruct st. Qed.

(** No line of the transcript fails exactly when every segment text can
    be encoded. *)
Lemma transcript_error_None (segs : list segment) :
  transcript_error segs = None
  <-> Forall (fun seg => encodable (seg_text seg)) segs.
Proof.
  induction segs as [|seg rest IH]; simpl; [split; [constructor|done]|].
  rewrite Forall_cons, <- IH, <- (format_line_encodable (seg_start seg)
                                    (seg_end seg)).
  fold (transcript_line seg).
  destruct (encode_error (transcript_line seg)).
  - split; [discriminate|]. by intros [? _].
  - rewrite fmap_None. tauto.
Qed.

(** The position [transcript_error] gives is that of the first segment
    whose line cannot be encoded. *)
Lemma transcript_error_Some (segs : list segment) :
  forall (k : nat) (msg : pystr),
    transcript_error segs = Some (k, msg) ->
    exists seg,
      segs !! k = Some seg
      /\ encode_error (transcript_line seg) = Some msg
      /\ transcript_error (take k segs) = None.
Proof.
  induction segs as [|seg rest IH]; intros k msg; simpl; [discriminate|].
  destruct (encode_error (transcript_line seg)) as [m|] eqn:E.
  - intros [= <- <-]. by exists seg.
  - destruct (transcript_error rest) as [[k' m]|] eqn:E'; [|discriminate].
    simpl. intros [= <- <-]. destruct (IH k' m eq_refl) as (s & H1 & H2 & H3).
    exists s. simpl. rewrite E, H3. done.
Qed.

Lemma f_write_bytes_at (path : pystr) (data c : list N) (st : state) :
  fs st !! path = Some c ->
  f_write_bytes path data st
  = (Ok tt, State (<[path := c ++ data]> (fs st)) (log st) (open_clips st)).
Proof. intros H. unfold f_write_bytes. by rewrite H. Qed.

Lemma f_write_at (s : stage) (path : pystr) (text c : list N) (st : state) :
  encode_error text = None ->
  fs st !! path = Some c ->
  f_write s path text st
  = (Ok tt, State (<[path := c ++ text]> (fs st)) (log st) (open_clips st)).
Proof.
  intros He H. unfold f_write. rewrite He. by apply f_write_bytes_at.
Qed.

Lemma f_write_raises (s : stage) (path : pystr) (text msg : pystr)
    (st : state) :
  encode_error text = Some msg ->
  f_write s path text st = (Raise (Exn s msg), st).
Proof. intros He. unfold f_write. by rewrite He. Qed.

(** The transcript loop appends one formatted line per segment, up to
    the first line that cannot be encoded, where it raises. *)
Lemma write_segments_spec (path : pystr) (segs : list segment) :
  forall (st : state) (c : list N),
    fs st !! path = Some c ->
    write_segments path segs st
    = match transcript_error segs with
      | None =>
          (Ok tt,
           State (<[path := c ++ concat (map transcript_line segs)]> (fs st))
                 (log st) (open_clips st))
      | Some (k, msg) =>
          (Raise (Exn TranscriptWrite msg),
           State (<[path := c ++ concat (map transcript_line (take k segs))]>
                    (fs st))
                 (log st) (open_clips st))
      end.
Proof.
  induction segs as [|seg rest IH]; intros st c Hc; simpl.
  - rewrite app_nil_r, insert_id by done. unfold mret, M_ret.
    by rewrite state_eta.
  - unfold mbind, M_bind. fold (transcript_line seg).
    destruct (encode_error (transcript_line seg)) as [m|] eqn:E.
    + rewrite (f_write_raises _ _ _ _ _ E). simpl.
      by rewrite app_nil_r, insert_id, state_eta.
    + rewrite (f_write_at _ _ _ _ _ E Hc).
      erewrite IH by (simpl; apply lookup_insert_eq). simpl.
      destruct (transcript_error rest) as [[k m]|]; simpl;
        by rewrite insert_insert_eq, <- app_assoc.
Qed.

(** One turn of the translation loop, for a segment whose text went
    into the transcript, never raises: it writes exactly one line, the
    translated one or the sentinel one, and logs the failure if there
    was one. *)
Lemma translate_segment_spec (be : backend) (path : pystr) (n : nat)
    (seg : segment) (st : state) (c : list N) :
  encodable (seg_text seg) ->
  fs st !! path = Some c ->
  translate_segment be path n seg st
  = (Ok (translation_line be n seg),
     State (<[path := c ++ translation_line be n seg]> (fs st))
           (log st ++ errors_of be n seg) (open_clips st)).
Proof.
  intros Henc Hc.
  assert (Hs : encode_error (format_line (seg_start seg) (seg_end seg)
                               (TRANSLATION_FAILED ++ seg_text seg)) = None)
    by (by apply format_line_encodable, sentinel_encodable).
  unfold translate_segment, try_except, translation_line, text_or_error,
    errors_of, translated, mbind, M_bind, call, logging, mret, M_ret.
  destruct (ChatCompletion be n (seg_text seg)) as [content|e]; simpl.
  - destruct (encode_error (format_line _ _ (strip content))) as [m|] eqn:E.
    + rewrite (f_write_raises _ _ _ _ _ E). simpl.
      by erewrite (f_write_at _ _ _ c) by done.
    + rewrite (f_write_at _ _ _ c _ E Hc). simpl. by rewrite app_nil_r.
  - by erewrite (f_write_at _ _ _ c) by done.
Qed.

(** The translation loop, for segments whose texts went into the
    transcript, never raises, whatever the service does. *)
Lemma translate_segments_spec (be : backend) (path : pystr)
    (segs : list segment) :
  forall (n : nat) (translation : list pystr) (st : state) (c : list N),
    Forall (fun seg => encodable (seg_text seg)) segs ->
    fs st !! path = Some c ->
    translate_segments be path n segs translation st
    = (Ok (translation ++ translation_lines be n segs),
       State (<[path := c ++ concat (translation_lines be n segs)]> (fs st))
             (log st ++ translation_errors be n segs) (open_clips st)).
Proof.
  induction segs as [|seg rest IH]; intros n translation st c Henc Hc.
  - simpl. rewrite !app_nil_r, insert_id by done. unfold mret, M_ret.
    by rewrite state_eta.
  - apply Forall_cons in Henc as [Hseg Hrest].
    cbn [translate_segments]. unfold mbind, M_bind.
    rewrite (translate_segment_spec _ _ _ _ _ c Hseg Hc).
    erewrite IH by (done || simpl; apply lookup_insert_eq).
    cbn [fs log open_clips translation_lines translation_errors concat].
    by rewrite insert_insert_eq, <- !app_assoc.
Qed.

End LoopFacts.

(* ===================================================================== *)
(** ** The artifacts line by line *)
(* ===================================================================== *)

Module ArtifactFacts.

Lemma translation_lines_length (be : backend) (segs : list segment) :
  forall n : nat, length (translation_lines be n segs) = length segs.
Proof. induction segs as [|seg rest IH]; intros n; simpl; [done|]. by rewrite IH. Qed.

(** The [j]-th line is made from the [j]-th segment and the [j]-th call
    of the translation service. *)
Lemma translation_lines_lookup (be : backend) (segs : list segment) :
  forall (n j : nat),
    translation_lines be n segs !! j
    = translation_line be (n + j) <$> segs !! j.
Proof.
  induction segs as [|seg rest IH]; intros n j; [done|].
  destruct j as [|j]; simpl.
  - by rewrite Nat.add_0_r.
  - rewrite IH. by rewrite Nat.add_succ_r.
Qed.

Lemma translation_lines_imap (be : backend) (segs : list segment) :
  forall n : nat,
    translation_lines be n segs
    = imap (fun j => translation_line be (n + j)) segs.
Proof.
  induction segs as [|seg rest IH]; intros n; [done|].
  simpl. rewrite Nat.add_0_r, IH. f_equal.
  apply imap_ext. intros j s _. simpl. by rewrite Nat.add_succ_r.
Qed.



(** [format_line] spelled out: the canonical line
    [[{start:.2f}s - {end:.2f}s] {text}] and its line feed. *)
Lemma format_line_canonical (s e : pyfloat) (text : pystr) :
  format_line s e text
  = [91] ++ format_2f s ++ [115; 32; 45; 32] ++ format_2f e
         ++ [115; 93; 32] ++ text ++ [LF].
Proof. unfold format_line, timing. by rewrite <- !app_assoc. Qed.

Lemma timing_single_line (s e : pyfloat) : single_line (timing s e).
Proof.
  unfold timing.
  repeat apply single_line_app; try apply format_2f_single_line;
    apply single_line_chars; repeat (constructor; try lia).
Qed.

(** A formatted line whose text has no line break is one line. *)
Lemma format_line_one_line (s e : pyfloat) (text : pystr) :
  single_line text -> count_lines (format_line s e text) = 1%nat.
Proof.
  intros [Ht _]. destruct (timing_single_line s e) as [Hl _].
  unfold format_line. rewrite !count_lines_app.
  by rewrite (count_lines_no_LF _ Hl), (count_lines_no_LF _ Ht).
Qed.

Lemma format_line_no_CR (s e : pyfloat) (text : pystr) :
  single_line text -> CR ∉ format_line s e text.
Proof.
  intros [_ Ht]. destruct (timing_single_line s e) as [_ Hl].
  unfold format_line. rewrite !not_elem_of_app. repeat split; try done.
  rewrite list_elem_of_singleton. discriminate.
Qed.

Lemma count_lines_concat (ls : list pystr) :
  Forall (fun l => count_lines l = 1%nat) ls ->
  count_lines (concat ls) = length ls.
Proof.
  induction 1 as [|l ls Hl _ IH]; [done|].
  simpl. by rewrite count_lines_app, Hl, IH.
Qed.

Lemma CR_notin_concat (ls : list pystr) :
  Forall (fun l => CR ∉ l) ls -> CR ∉ concat ls.
Proof.
  induction 1 as [|l ls Hl _ IH]; simpl; [set_solver|].
  rewrite not_elem_of_app. done.
Qed.

(** The three ways a turn of the translation loop goes: the call
    answers and the trimmed answer is written; the call answers with
    text that cannot be encoded, and the handler writes the sentinel
    line and logs the message of the encoder; the call fails, and the
    handler does the same with the message of the call. *)
Lemma text_or_error_cases (be : backend) (n : nat) (seg : segment) :
  (exists c,
      ChatCompletion be n (seg_text seg) = Done c
      /\ encodable (strip c)
      /\ text_or_error be n seg = strip c
      /\ errors_of be n seg = [])
  \/ (exists c msg,
        ChatCompletion be n (seg_text seg) = Done c
        /\ ~ encodable (strip c)
        /\ encode_error (format_line (seg_start seg) (seg_end seg) (strip c))
           = Some msg
        /\ text_or_error be n seg = TRANSLATION_FAILED ++ seg_text seg
        /\ errors_of be n seg = [(ERROR, TRANSLATION_FAILED ++ msg)])
  \/ (exists e,
        ChatCompletion be n (seg_text seg) = Failed e
        /\ text_or_error be n seg = TRANSLATION_FAILED ++ seg_text seg
        /\ errors_of be n seg = [(ERROR, TRANSLATION_FAILED ++ e)]).
Proof.
  unfold text_or_error, errors_of, translated.
  destruct (ChatCompletion be n (seg_text seg)) as [c|e]; [|by eauto 10].
  destruct (encode_error (format_line _ _ (strip c))) as [m|] eqn:E.
  - right. left. exists c, m. repeat split; try done.
    intros Henc.
    apply (format_line_encodable (seg_start seg) (seg_end seg)) in Henc.
    congruence.
  - left. exists c. repeat split; try done.
    by eapply format_line_encodable.
Qed.

Lemma sentinel_single_line (text : pystr) :
  single_line text -> single_line (TRANSLATION_FAILED ++ text).
Proof.
  intros H. apply single_line_app; [|done].
  apply single_line_chars. unfold TRANSLATION_FAILED.
  repeat (constructor; try lia).
Qed.

(** When the segment texts and the trimmed translations hold no line
    break, neither does any text the translation artifact carries. *)
Lemma text_or_error_single_line (be : backend) (n : nat) (seg : segment) :
  single_line (seg_text seg) ->
  (forall c, ChatCompletion be n (seg_text seg) = Done c ->
             single_line (strip c)) ->
  single_line (text_or_error be n seg).
Proof.
  intros Ht Hc.
  destruct (text_or_error_cases be n seg)
    as [(c & E & _ & -> & _)|[(c & m & _ & _ & _ & -> & _)|(e & _ & -> & _)]];
    [by apply Hc|by apply sentinel_single_line..].
Qed.

Lemma transcript_lines_single (segs : list segment) :
  Forall (fun seg => single_line (seg_text seg)) segs ->
  Forall (fun l => count_lines l = 1%nat /\ CR ∉ l) (map transcript_line segs).
Proof.
  intros H. apply Forall_map. eapply Forall_impl; [exact H|].
  intros seg Hs. split.
  - by apply format_line_one_line.
  - by apply format_line_no_CR.
Qed.

Lemma translation_lines_single (be : backend) (segs : list segment) :
  forall n : nat,
    (forall j seg, segs !! j = Some seg ->
                   single_line (text_or_error be (n + j) seg)) ->
    Forall (fun l => count_lines l = 1%nat /\ CR ∉ l)
           (translation_lines be n segs).
Proof.
  induction segs as [|seg rest IH]; intros n H; simpl; constructor.
  - specialize (H 0%nat seg eq_refl). rewrite Nat.add_0_r in H. split.
    + by apply format_line_one_line.
    + by apply format_line_no_CR.
  - apply IH. intros j s Hj. specialize (H (S j) s Hj).
    by rewrite Nat.add_succ_r in H.
Qed.

Lemma header_lines (header : pystr) (ls : list pystr) :
  LF ∉ header -> CR ∉ header ->
  Forall (fun l => count_lines l = 1%nat /\ CR ∉ l) ls ->
  count_lines (header ++ [LF] ++ concat ls) = S (length ls)
  /\ universal_newlines (header ++ [LF] ++ concat ls)
     = header ++ [LF] ++ concat ls.
Proof.
  intros Hlf Hcr Hls. split.
  - rewrite !count_lines_app, (count_lines_no_LF _ Hlf).
    rewrite count_lines_concat; [done|].
    eapply Forall_impl; [exact Hls|]. by intros l [? ?].
  - apply universal_newlines_id. rewrite !not_elem_of_app.
    repeat split; [done|rewrite list_elem_of_singleton; discriminate|].
    apply CR_notin_concat. eapply Forall_impl; [exact Hls|]. by intros l [? ?].
Qed.

End ArtifactFacts.

Import ArtifactFacts.
Import LoopFacts.

(* ===================================================================== *)
(** ** The run as a whole *)
(* ===================================================================== *)

Module RunFacts.

Lemma artifact_paths_differ (filename : pystr) :
  transcription_file_of filename <> english_transcription_file_of filename.
Proof.
  unfold transcription_file_of, english_transcription_file_of, join.
  set (b := (splitext filename).1).
  assert (Hs : startswith_sep (b ++ TRANSCRIPTION_TXT)
               = startswith_sep (b ++ TRANSLATION_TXT)) by by destruct b.
  rewrite <- Hs.
  destruct (startswith_sep (b ++ TRANSCRIPTION_TXT));
    [|destruct (bool_decide (AUDIO_FOLDER = []) || endswith_sep AUDIO_FOLDER)];
    intros E; simplify_list_eq.
Qed.

Lemma bind_ok {A B} (m : M A) (f : A -> M B) (st st' : state) (a : A) :
  m st = (Ok a, st') -> (m ≫= f) st = f a st'.
Proof. intros H. unfold mbind, M_bind. by rewrite H. Qed.

Lemma bind_raise {A B} (m : M A) (f : A -> M B) (st st' : state) (e : exn) :
  m st = (Raise e, st') -> (m ≫= f) st = (Raise e, st').
Proof. intros H. unfold mbind, M_bind. by rewrite H. Qed.

Lemma open_w_ok (be : backend) (s : stage) (path : pystr) (st : state) :
  open_error be path = None ->
  open_w be s path st
  = (Ok tt, State (<[path := []]> (fs st)) (log st) (open_clips st)).
Proof. intros H. unfold open_w. by rewrite H. Qed.

Lemma open_w_refused (be : backend) (s : stage) (path msg : pystr)
    (st : state) :
  open_error be path = Some msg ->
  open_w be s path st = (Raise (Exn s msg), st).
Proof. intros H. unfold open_w. by rewrite H. Qed.

Lemma read_bytes_at (s : stage) (path : pystr) (c : list N) (st : state) :
  fs st !! path = Some c -> read_bytes s path st = (Ok c, st).
Proof. intros H. unfold read_bytes. by rewrite H. Qed.

Lemma read_text_at (be : backend) (s : stage) (path : pystr) (c : list N)
    (st : state) :
  read_error be path = None ->
  fs st !! path = Some c ->
  read_text be s path st = (Ok (universal_newlines c), st).
Proof. intros Hr H. unfold read_text. by rewrite Hr, H. Qed.

Lemma read_text_refused (be : backend) (s : stage) (path msg : pystr)
    (st : state) :
  read_error be path = Some msg ->
  read_text be s path st = (Raise (Exn s msg), st).
Proof. intros Hr. unfold read_text. by rewrite Hr. Qed.

Lemma header_encodable :
  encode_error (HEADER_KO ++ [LF]) = None
  /\ encode_error (HEADER_EN ++ [LF]) = None.
Proof. by vm_compute. Qed.

Lemma call_done {A} (s : stage) (r : attempt A) (a : A) (st : state) :
  r = Done a -> call s r st = (Ok a, st).
Proof. by intros ->. Qed.

Lemma call_failed {A} (s : stage) (r : attempt A) (msg : pystr)
    (st : state) :
  r = Failed msg -> call s r st = (Raise (Exn s msg), st).
Proof. by intros ->. Qed.

(** One statement of the block that cannot raise. *)
Ltac pure_step :=
  erewrite bind_ok by reflexivity; cbv beta; cbn [fs log open_clips].
(** One statement that goes through by the lemma [L]. *)
Ltac step_by L :=
  erewrite bind_ok;
    [| apply L; cbn [fs log open_clips];
       first [eassumption | reflexivity | apply lookup_insert_eq] ];
  cbv beta; cbn [fs log open_clips].
(** The statement that raises, by the lemma [L]. *)
Ltac stop_by L :=
  erewrite bind_raise by (apply L; first [eassumption | reflexivity]).

Lemma fs_translation_english (be : backend) (filename : pystr)
    (content audio : list N) (segs : list segment) (m : gmap pystr (list N)) :
  fs_translation be filename content audio segs m
    !! english_transcription_file_of filename
  = Some (translation_artifact be segs).
Proof. apply lookup_insert_eq. Qed.

Lemma fs_translation_transcript (be : backend) (filename : pystr)
    (content audio : list N) (segs : list segment) (m : gmap pystr (list N)) :
  fs_translation be filename content audio segs m
    !! transcription_file_of filename
  = Some (transcript_artifact segs).
Proof.
  unfold fs_translation.
  rewrite lookup_insert_ne by (symmetry; apply artifact_paths_differ).
  apply lookup_insert_eq.
Qed.

(** Two equations on the answer of one service: they clash, or identify
    the answers. [stages_ok] is opened first. *)
Ltac settle_oracles :=
  try match goal with
  | H : stages_ok _ _ _ _ _ |- _ =>
      destruct H as (?Hv & ?Hc & ?Ha & ?Hs & ?Ht & ?He & ?Hu & ?Hrt & ?Hre)
  end;
  repeat match goal with
  | H1 : ?x = _, H2 : ?x = _ |- _ =>
      rewrite H1 in H2;
      (discriminate H2 || (injection H2 as -> ->) || (injection H2 as ->))
  end.

Section Run.

Context (be : backend) (filename : pystr) (content : list N) (st : state).

(** Every run of the [try] block ends in one of the cases of
    [run_case]. *)
Lemma stt_body_run_case :
  run_case be filename content st (stt_body be filename content st).
Proof.
  destruct header_encodable as [HKO HEN].
  unfold stt_body. pure_step.
  destruct (open_error be (video_path_of filename)) as [m|] eqn:Hv.
  { stop_by open_w_refused. by apply run_video_refused. }
  step_by open_w_ok. step_by f_write_bytes_at. pure_step.
  step_by read_bytes_at.
  rewrite insert_insert_eq, app_nil_l.
  destruct (AudioFileClip be content) as [[]|m] eqn:Hclip.
  2:{ stop_by @call_failed. by apply run_decode_failed. }
  step_by @call_done. pure_step.
  destruct (write_audiofile be content) as [audio|m] eqn:Haudio.
  2:{ stop_by @call_failed. by apply run_audio_write_failed. }
  step_by @call_done. do 4 pure_step. step_by read_bytes_at.
  destruct (transcribe be audio) as [segs|m] eqn:Hsegs.
  2:{ stop_by @call_failed. by eapply run_transcribe_failed. }
  step_by @call_done. do 2 pure_step.
  destruct (open_error be (transcription_file_of filename)) as [m|] eqn:Ht.
  { stop_by open_w_refused. by eapply run_transcript_refused. }
  step_by open_w_ok.
  erewrite bind_ok
    by (apply f_write_at; [exact HKO|cbn [fs]; apply lookup_insert_eq]).
  cbv beta; cbn [fs log open_clips].
  rewrite !insert_insert_eq, app_nil_l.
  destruct (transcript_error segs) as [[k m]|] eqn:Hu.
  { erewrite bind_raise.
    2:{ erewrite write_segments_spec by (cbn [fs]; apply lookup_insert_eq).
        rewrite Hu. reflexivity. }
    cbn [fs log open_clips]. rewrite insert_insert_eq.
    by eapply run_transcript_unencodable. }
  erewrite bind_ok.
  2:{ erewrite write_segments_spec by (cbn [fs]; apply lookup_insert_eq).
      rewrite Hu. reflexivity. }
  cbv beta; cbn [fs log open_clips]. do 2 pure_step.
  rewrite !insert_insert_eq.
  change ((HEADER_KO ++ [LF]) ++ concat (map transcript_line segs))
    with (transcript_artifact segs).
  destruct (open_error be (english_transcription_file_of filename))
    as [m|] eqn:He.
  { stop_by open_w_refused. by eapply run_translation_refused. }
  step_by open_w_ok.
  erewrite bind_ok
    by (apply f_write_at; [exact HEN|cbn [fs]; apply lookup_insert_eq]).
  cbv beta; cbn [fs log open_clips].
  erewrite bind_ok
    by (apply translate_segments_spec;
        [by apply transcript_error_None|cbn [fs]; apply lookup_insert_eq]).
  cbv beta; cbn [fs log open_clips]. do 2 pure_step.
  rewrite !insert_insert_eq, app_nil_l.
  change ((HEADER_EN ++ [LF]) ++ concat (translation_lines be 0 segs))
    with (translation_artifact be segs).
  destruct (read_error be (transcription_file_of filename)) as [m|] eqn:Hrt.
  { stop_by read_text_refused. by eapply run_transcript_unreadable. }
  erewrite bind_ok.
  2:{ apply read_text_at; [exact Hrt|]. cbn [fs].
      rewrite lookup_insert_ne by (symmetry; apply artifact_paths_differ).
      apply lookup_insert_eq. }
  cbv beta.
  destruct (read_error be (english_transcription_file_of filename))
    as [m|] eqn:Hre.
  { stop_by read_text_refused. by eapply run_translation_unreadable. }
  erewrite bind_ok
    by (apply read_text_at; [exact Hre|cbn [fs]; apply lookup_insert_eq]).
  cbv beta. unfold mret, M_ret.
  by apply (run_completed _ _ _ _ audio segs).
Qed.

(** When every service answers, the run completes and leaves exactly
    the four files. *)
Lemma run_completes (audio : list N) (segs : list segment) :
  stages_ok be filename content audio segs ->
  exists st',
    stt_body be filename content st
    = (Ok (universal_newlines (transcript_artifact segs),
           universal_newlines (translation_artifact be segs)), st')
    /\ fs st' = fs_translation be filename content audio segs (fs st)
    /\ open_clips st' = open_clips st.
Proof.
  intros Hok.
  destruct stt_body_run_case; try (settle_oracles; fail).
  match goal with H : stages_ok _ _ _ ?a ?s |- _ => rename H into Hok' end.
  destruct Hok as (Hv & Hc & Ha & Hs & Ht & He & Hu & Hrt & Hre).
  destruct Hok' as (_ & _ & Ha' & Hs' & _).
  rewrite Ha in Ha'. injection Ha' as <-.
  rewrite Hs in Hs'. injection Hs' as <-.
  eauto.
Qed.

Lemma upload_completes (audio : list N) (segs : list segment) :
  stages_ok be filename content audio segs ->
  exists st',
    upload_and_transcribe be filename content st
    = (JSONResponse 200 (universal_newlines (transcript_artifact segs))
                    (universal_newlines (translation_artifact be segs)), st')
    /\ fs st' = fs_translation be filename content audio segs (fs st)
    /\ open_clips st' = open_clips st.
Proof.
  intros Hok. destruct (run_completes _ _ Hok) as (st' & E & H).
  exists st'. unfold upload_and_transcribe. by rewrite E.
Qed.

(** A response is a success only for a completed run. *)
Lemma success_inv (st' : state) (code : Z) (t tr : pystr) :
  upload_and_transcribe be filename content st = (JSONResponse code t tr, st') ->
  exists audio segs,
    stages_ok be filename content audio segs
    /\ code = 200%Z
    /\ t = universal_newlines (transcript_artifact segs)
    /\ tr = universal_newlines (translation_artifact be segs)
    /\ fs st' = fs_translation be filename content audio segs (fs st)
    /\ open_clips st' = open_clips st.
Proof.
  unfold upload_and_transcribe.
  destruct stt_body_run_case; intros E; try discriminate E.
  injection E as <- <- <- <-. eauto 10.
Qed.

End Run.

End RunFacts.

Import RunFacts.

(* ===================================================================== *)
(** ** The claims about the pipeline *)
(* ===================================================================== *)

(** The run of [Scenarios.be_second_fails]: three segments, the second
    translation call fails. *)
Lemma second_fails_stages_ok :
  stages_ok Scenarios.be_second_fails Scenarios.CLIP_MP4 Scenarios.VIDEO
            Scenarios.WAVEFORM
            [Scenarios.SEG0; Scenarios.SEG1; Scenarios.SEG2].
Proof. repeat split. Defined.

(** The run of [Scenarios.be_surrogate_answer]: the second call fails
    and the third answers with text that cannot be encoded. *)
Lemma surrogate_answer_stages_ok :
  stages_ok Scenarios.be_surrogate_answer Scenarios.CLIP_MP4 Scenarios.VIDEO
            Scenarios.WAVEFORM
            [Scenarios.SEG0; Scenarios.SEG1; Scenarios.SEG2].
Proof. repeat split. Defined.

(** The files and the log of that run, computed: the third line is the
    sentinel line although the third call answered, and the log has the
    message of the encoder next to that of the failed call. *)
Example surrogate_answer_run :
  let run := upload_and_transcribe Scenarios.be_surrogate_answer
               Scenarios.CLIP_MP4 Scenarios.VIDEO Scenarios.st0 in
  fs run.2 !! english_transcription_file_of Scenarios.CLIP_MP4
  = Some (HEADER_EN ++ [LF]
          ++ utf8 "[0.00s - 2.50s] Hello." ++ [LF]
          ++ utf8 "[2.50s - 5.00s] " ++ TRANSLATION_FAILED
             ++ Scenarios.TEXT1 ++ [LF]
          ++ utf8 "[5.00s - 7.25s] " ++ TRANSLATION_FAILED
             ++ Scenarios.TEXT2 ++ [LF])
  /\ List.filter is_error (log run.2)
     = [(ERROR, TRANSLATION_FAILED ++ Scenarios.RATE_LIMIT);
        (ERROR,
         TRANSLATION_FAILED
         ++ utf8 "'utf-8' codec can't encode character '\ud83d' in position 24: surrogates not allowed")].
Proof. by vm_compute. Qed.

(** C1, as stated, fails: in the run of [Scenarios.be_surrogate_answer]
    only the call for the second segment fails, yet the line of the
    third segment does not carry its translation. The answer holds a
    lone surrogate, the write of the translated line raises inside the
    [try], and the handler writes the sentinel line. *)
Lemma C1_counterexample :
  ~ Stated.failure_isolated Scenarios.be_surrogate_answer Scenarios.CLIP_MP4
      Scenarios.VIDEO Scenarios.st0.
Proof.
  intros H.
  destruct (H Scenarios.WAVEFORM
              [Scenarios.SEG0; Scenarios.SEG1; Scenarios.SEG2]
              1%nat Scenarios.SEG1 Scenarios.RATE_LIMIT
              surrogate_answer_stages_ok eq_refl eq_refl)
    as (st' & lines & t & tr & E & Hfile & Hlen & Hk & Hj).
  { intros [|[|[|j]]] seg_j Hne Hseg; try done; simpl; eauto. }
  pose proof (Hj 0%nat Scenarios.SEG0 _ ltac:(done) eq_refl eq_refl) as H0.
  pose proof (Hj 2%nat Scenarios.SEG2 _ ltac:(done) eq_refl eq_refl) as H2.
  destruct lines as [|l0 [|l1 [|l2 [|l3 lines]]]]; try discriminate Hlen.
  simpl in H0, Hk, H2. injection H0 as ->. injection Hk as ->.
  injection H2 as ->.
  destruct surrogate_answer_run as [Hrun _]. rewrite E in Hrun.
  cbn [snd] in Hrun. rewrite Hfile in Hrun.
  vm_compute in Hrun. discriminate Hrun.
Qed.

(** C1, amended. Failure isolation. In a run in which nothing else
    fails, a failing translation call for segment [k] does not abort the
    run: the response is the success response, the translation artifact
    holds one line per segment, and the line of segment [k] has the
    timing of segment [k] followed by the sentinel and the original
    text. The line of a segment whose call answered has its timing
    followed by the translation trimmed of surrounding white space
    ([strip], see [strip_trimmed]) when that text can be encoded as
    UTF-8; when it cannot, the segment is treated like one whose call
    failed and its line, too, carries the sentinel and the original
    text. *)
Theorem C1_failure_isolation (be : backend) (filename : pystr)
    (content : list N) (st : state) (audio : list N) (segs : list segment)
    (k : nat) (seg_k : segment) (e : pystr) :
  stages_ok be filename content audio segs ->
  segs !! k = Some seg_k ->
  ChatCompletion be k (seg_text seg_k) = Failed e ->
  exists (st' : state) (lines : list pystr) (t tr : pystr),
    upload_and_transcribe be filename content st = (JSONResponse 200 t tr, st')
    /\ fs st' !! english_transcription_file_of filename
       = Some (HEADER_EN ++ [LF] ++ concat lines)
    /\ tr = universal_newlines (HEADER_EN ++ [LF] ++ concat lines)
    /\ length lines = length segs
    /\ lines !! k
       = Some (timing (seg_start seg_k) (seg_end seg_k)
               ++ (TRANSLATION_FAILED ++ seg_text seg_k) ++ [LF])
    /\ (forall j seg_j c,
          segs !! j = Some seg_j ->
          ChatCompletion be j (seg_text seg_j) = Done c ->
          (encodable (strip c) ->
           lines !! j
           = Some (timing (seg_start seg_j) (seg_end seg_j)
                   ++ strip c ++ [LF]))
          /\ (~ encodable (strip c) ->
              lines !! j
              = Some (timing (seg_start seg_j) (seg_end seg_j)
                      ++ (TRANSLATION_FAILED ++ seg_text seg_j) ++ [LF]))).
Proof.
  intros Hok Hk Hfail.
  destruct (upload_completes _ _ _ st _ _ Hok) as (st' & E & Hfs & _).
  exists st', (translation_lines be 0 segs). do 2 eexists.
  split; [exact E|]. split; [rewrite Hfs; apply fs_translation_english|].
  split; [done|]. split; [apply translation_lines_length|]. split.
  - rewrite translation_lines_lookup, Hk. simpl. unfold translation_line.
    destruct (text_or_error_cases be k seg_k)
      as [(c & Hc & _)|[(c & m & Hc & _)|(e' & _ & -> & _)]];
      [congruence..|done].
  - intros j seg_j c Hj Hc. rewrite translation_lines_lookup, Hj. simpl.
    unfold translation_line.
    destruct (text_or_error_cases be j seg_j)
      as [(c' & Hc' & Henc & -> & _)
         |[(c' & m & Hc' & Henc & _ & -> & _)|(e' & He' & _)]];
      [| |congruence]; rewrite Hc in Hc'; injection Hc' as <-; by split.
Qed.

Lemma C1_failure_isolation_witness :
  exists (st' : state) (lines : list pystr) (t tr : pystr),
    upload_and_transcribe Scenarios.be_surrogate_answer Scenarios.CLIP_MP4
                          Scenarios.VIDEO Scenarios.st0
    = (JSONResponse 200 t tr, st')
    /\ fs st' !! english_transcription_file_of Scenarios.CLIP_MP4
       = Some (HEADER_EN ++ [LF] ++ concat lines)
    /\ tr = universal_newlines (HEADER_EN ++ [LF] ++ concat lines)
    /\ length lines = 3%nat
    /\ lines !! 1%nat
       = Some (timing (seg_start Scenarios.SEG1) (seg_end Scenarios.SEG1)
               ++ (TRANSLATION_FAILED ++ Scenarios.TEXT1) ++ [LF])
    /\ lines !! 0%nat
       = Some (timing (seg_start Scenarios.SEG0) (seg_end Scenarios.SEG0)
               ++ Scenarios.HELLO ++ [LF])
    /\ lines !! 2%nat
       = Some (timing (seg_start Scenarios.SEG2) (seg_end Scenarios.SEG2)
               ++ (TRANSLATION_FAILED ++ Scenarios.TEXT2) ++ [LF]).
Proof.
  destruct (C1_failure_isolation Scenarios.be_surrogate_answer
              Scenarios.CLIP_MP4 Scenarios.VIDEO Scenarios.st0
              Scenarios.WAVEFORM
              [Scenarios.SEG0; Scenarios.SEG1; Scenarios.SEG2]
              1%nat Scenarios.SEG1 Scenarios.RATE_LIMIT
              surrogate_answer_stages_ok eq_refl eq_refl)
    as (st' & lines & t & tr & E & Hfile & Htr & Hlen & Hk & Hj).
  exists st', lines, t, tr.
  split; [exact E|]. split; [exact Hfile|]. split; [exact Htr|].
  split; [exact Hlen|]. split; [exact Hk|]. split.
  - apply (Hj 0%nat Scenarios.SEG0 _ eq_refl eq_refl).
    apply (bool_decide_unpack _). vm_compute. reflexivity.
  - apply (Hj 2%nat Scenarios.SEG2 _ eq_refl eq_refl).
    apply (bool_decide_unpack _). vm_compute. reflexivity.
Defined.

(** The lines of the run of [Scenarios.be_second_fails], computed: the
    neighbours of the failed segment carry their trimmed translations. *)
Example second_fails_translation :
  (upload_and_transcribe Scenarios.be_second_fails Scenarios.CLIP_MP4
                         Scenarios.VIDEO Scenarios.st0).1
  = JSONResponse 200
      (HEADER_KO ++ [LF]
       ++ utf8 "[0.00s - 2.50s] " ++ Scenarios.TEXT0 ++ [LF]
       ++ utf8 "[2.50s - 5.00s] " ++ Scenarios.TEXT1 ++ [LF]
       ++ utf8 "[5.00s - 7.25s] " ++ Scenarios.TEXT2 ++ [LF])
      (HEADER_EN ++ [LF]
       ++ utf8 "[0.00s - 2.50s] Hello." ++ [LF]
       ++ utf8 "[2.50s - 5.00s] " ++ TRANSLATION_FAILED ++ Scenarios.TEXT1 ++ [LF]
       ++ utf8 "[5.00s - 7.25s] Goodbye." ++ [LF]).
Proof. by vm_compute. Qed.


Example two_line_answer_file :
  fs (upload_and_transcribe Scenarios.be_two_line_answer
        Scenarios.CLIP_MP4 Scenarios.VIDEO Scenarios.st0).2
     !! english_transcription_file_of Scenarios.CLIP_MP4
  = Some (HEADER_EN ++ [LF]
          ++ utf8 "[0.00s - 2.50s] Hello." ++ [LF]
          ++ utf8 "Goodbye." ++ [LF]).
Proof. by vm_compute. Qed.

Example two_line_answer_counts :
  let st' := (upload_and_transcribe Scenarios.be_two_line_answer
                Scenarios.CLIP_MP4 Scenarios.VIDEO Scenarios.st0).2 in
  count_lines <$> file_text st' (english_transcription_file_of Scenarios.CLIP_MP4)
  = Some 3%nat
  /\ count_lines <$> file_text st' (transcription_file_of Scenarios.CLIP_MP4)
     = Some 2%nat.
Proof. by vm_compute. Qed.



(** C3, as stated, fails: in the run of [Scenarios.be_two_line_answer]
    the translation artifact reads as three lines for its one segment,
    the last of them the bare text [Goodbye.]. *)
Lemma C3_counterexample :
  ~ Stated.one_canonical_line_per_segment Scenarios.be_two_line_answer
      Scenarios.CLIP_MP4 Scenarios.VIDEO Scenarios.st0.
Proof.
  intros H.
  destruct (H Scenarios.WAVEFORM [Scenarios.SEG0])
    as (lt & ltr & _ & Hen & _ & Hlen & _).
  - repeat split.
  - vm_compute in Hen. injection Hen as <-. discriminate Hlen.
Qed.

(** C3, amended. Each artifact a completed run persists is its header
    line followed by one record per segment, in order; every record is
    [[{start:.2f}s - {end:.2f}s] {text}] ended by a line feed, where
    [text] is the segment's text in the transcript and the text of
    [text_or_error] in the translation (the trimmed translation, or the
    sentinel with the original text when the call failed or its answer
    could not be encoded); and [:.2f] prints every finite time with
    exactly two decimals. When no segment text and no trimmed
    translation contains a line break, each record is one line: the
    file reads as the header line followed by exactly these lines. *)
Theorem C3_artifact_format (be : backend) (filename : pystr)
    (content : list N) (st : state) (audio : list N) (segs : list segment) :
  stages_ok be filename content audio segs ->
  let body := fun (start_time end_time : pyfloat) (text : pystr) =>
    [91] ++ format_2f start_time ++ [115; 32; 45; 32] ++ format_2f end_time
         ++ [115; 93; 32] ++ text in
  exists (st' : state) (t tr : pystr),
    upload_and_transcribe be filename content st = (JSONResponse 200 t tr, st')
    /\ fs st' !! transcription_file_of filename
       = Some (HEADER_KO ++ [LF]
               ++ concat (map (fun seg =>
                                 body (seg_start seg) (seg_end seg)
                                      (seg_text seg) ++ [LF])
                              segs))
    /\ fs st' !! english_transcription_file_of filename
       = Some (HEADER_EN ++ [LF]
               ++ concat (imap (fun j seg =>
                                  body (seg_start seg) (seg_end seg)
                                       (text_or_error be j seg) ++ [LF])
                               segs))
    /\ (forall x : pyfloat, is_finite x = true -> two_decimals (format_2f x))
    /\ (Forall (fun seg => single_line (seg_text seg)) segs ->
        (forall j seg c,
            segs !! j = Some seg ->
            ChatCompletion be j (seg_text seg) = Done c ->
            single_line (strip c)) ->
        text_lines <$> file_text st' (transcription_file_of filename)
        = Some (HEADER_KO
                :: map (fun seg =>
                          body (seg_start seg) (seg_end seg) (seg_text seg))
                       segs)
        /\ text_lines <$> file_text st' (english_transcription_file_of filename)
           = Some (HEADER_EN
                   :: imap (fun j seg =>
                              body (seg_start seg) (seg_end seg)
                                   (text_or_error be j seg))
                           segs)).
Proof.
  intros Hok body.
  assert (Hbody : forall s e text,
             format_line s e text = body s e text ++ [LF]).
  { intros s e text. rewrite format_line_canonical. unfold body.
    by rewrite <- !app_assoc. }
  assert (Hline : forall s e text, single_line text -> LF ∉ body s e text).
  { intros s e text [Ht _]. destruct (timing_single_line s e) as [Hl _].
    replace (body s e text) with (timing s e ++ text)
      by (unfold body, timing; by rewrite <- !app_assoc).
    by rewrite not_elem_of_app. }
  destruct (upload_completes _ _ _ st _ _ Hok) as (st' & E & Hfs & _).
  assert (Ht : fs st' !! transcription_file_of filename
               = Some (HEADER_KO ++ [LF]
                       ++ concat (map (fun seg =>
                                         body (seg_start seg) (seg_end seg)
                                              (seg_text seg) ++ [LF])
                                      segs))).
  { rewrite Hfs, fs_translation_transcript. unfold transcript_artifact.
    erewrite map_ext; [reflexivity|]. intros seg. apply Hbody. }
  assert (Hen : fs st' !! english_transcription_file_of filename
                = Some (HEADER_EN ++ [LF]
                        ++ concat (imap (fun j seg =>
                                           body (seg_start seg) (seg_end seg)
                                                (text_or_error be j seg)
                                           ++ [LF])
                                        segs))).
  { rewrite Hfs, fs_translation_english. unfold translation_artifact.
    rewrite translation_lines_imap.
    erewrite imap_ext; [reflexivity|]. intros j seg _. apply Hbody. }
  exists st'. do 2 eexists. split; [exact E|].
  split; [exact Ht|]. split; [exact Hen|].
  split; [apply format_2f_two_decimals|].
  intros Htext Hchat.
  assert (HKO : single_line HEADER_KO)
    by (apply single_line_chars; repeat (constructor; try lia)).
  assert (HEN : single_line HEADER_EN)
    by (apply single_line_chars; repeat (constructor; try lia)).
  assert (Hte : forall j seg, segs !! j = Some seg ->
                              single_line (text_or_error be j seg)).
  { intros j seg Hj. apply text_or_error_single_line.
    - rewrite Forall_forall in Htext. apply Htext.
      by eapply list_elem_of_lookup_2.
    - intros c Hc. by eapply Hchat. }
  destruct (header_lines HEADER_KO (map transcript_line segs))
    as [_ Hu1]; [apply HKO..|by apply transcript_lines_single|].
  destruct (header_lines HEADER_EN (translation_lines be 0 segs))
    as [_ Hu2]; [apply HEN..|by apply translation_lines_single|].
  unfold file_text. split.
  - rewrite Hfs, fs_translation_transcript.
    cbn [fmap option_fmap option_map]. unfold transcript_artifact.
    rewrite Hu1. f_equal.
    rewrite <- (text_lines_records HEADER_KO); [|apply HKO|].
    + rewrite map_map. do 4 f_equal. apply map_ext. intros seg. apply Hbody.
    + apply Forall_map. eapply Forall_impl; [exact Htext|].
      intros seg Hs. by apply Hline.
  - rewrite Hfs, fs_translation_english.
    cbn [fmap option_fmap option_map]. unfold translation_artifact.
    rewrite Hu2. f_equal.
    rewrite <- (text_lines_records HEADER_EN); [|apply HEN|].
    + rewrite translation_lines_imap.
      change (map ?f ?l) with (f <$> l). rewrite fmap_imap.
      do 4 f_equal. apply imap_ext. intros j seg _. apply Hbody.
    + apply Forall_forall. intros b Hb.
      apply list_elem_of_lookup in Hb as [j Hb].
      rewrite list_lookup_imap in Hb.
      destruct (segs !! j) as [seg|] eqn:Hj; [|discriminate Hb].
      injection Hb as <-. by apply Hline, Hte.
Qed.

Lemma C3_artifact_format_witness :
  exists (st' : state) (t tr : pystr),
    upload_and_transcribe Scenarios.be_second_fails Scenarios.CLIP_MP4
                          Scenarios.VIDEO Scenarios.st0
    = (JSONResponse 200 t tr, st')
    /\ two_decimals (format_2f (seg_end Scenarios.SEG2))
    /\ text_lines <$> file_text st'
                        (english_transcription_file_of Scenarios.CLIP_MP4)
       = Some [HEADER_EN;
               utf8 "[0.00s - 2.50s] Hello.";
               utf8 "[2.50s - 5.00s] " ++ TRANSLATION_FAILED ++ Scenarios.TEXT1;
               utf8 "[5.00s - 7.25s] Goodbye."].
Proof.
  destruct (C3_artifact_format Scenarios.be_second_fails
              Scenarios.CLIP_MP4 Scenarios.VIDEO Scenarios.st0
              Scenarios.WAVEFORM
              [Scenarios.SEG0; Scenarios.SEG1; Scenarios.SEG2]
              second_fails_stages_ok)
    as (st' & t & tr & E & _ & _ & Hdec & Hlines).
  exists st', t, tr. split; [exact E|]. split; [apply Hdec; reflexivity|].
  destruct Hlines as [_ Hen].
  - apply (bool_decide_unpack _). vm_compute. reflexivity.
  - intros j seg c Hj Hc.
    destruct j as [|[|[|j]]]; simpl in Hj; try discriminate Hj;
      injection Hj as <-; simpl in Hc; try discriminate Hc;
      injection Hc as <-; apply (bool_decide_unpack _); vm_compute;
      reflexivity.
  - rewrite Hen. vm_compute. reflexivity.
Defined.

(** The timestamps of the last segment of that run, 5 and 29/4 seconds. *)
Example format_2f_examples :
  format_2f (F_finite false 5 0) = utf8 "5.00"
  /\ format_2f (F_finite false 29 (-2)) = utf8 "7.25"
  /\ format_2f (F_finite false 1 (-3)) = utf8 "0.12"
  /\ format_2f (F_finite false 3 (-3)) = utf8 "0.38"
  /\ format_2f (F_finite true 1 (-10)) = utf8 "-0.00".
Proof. by vm_compute. Qed.

(** The run of [Scenarios.be_cr_answer]: one segment, answered with a
    text that holds a carriage return. *)
Lemma cr_answer_stages_ok :
  stages_ok Scenarios.be_cr_answer Scenarios.CLIP_MP4 Scenarios.VIDEO
            Scenarios.WAVEFORM [Scenarios.SEG0].
Proof. repeat split. Defined.

(** C4, as stated, fails: in the run of [Scenarios.be_cr_answer] the
    translation file holds the carriage return of the answer, and the
    response, read back in text mode, has a line feed in its place. *)
Lemma C4_counterexample :
  ~ Stated.response_is_file_contents Scenarios.be_cr_answer
      Scenarios.CLIP_MP4 Scenarios.VIDEO Scenarios.st0.
Proof.
  intros H.
  destruct (upload_completes Scenarios.be_cr_answer Scenarios.CLIP_MP4
              Scenarios.VIDEO Scenarios.st0 _ _ cr_answer_stages_ok)
    as (st' & E & Hfs & _).
  destruct (H _ _ _ _ E) as [_ Htr].
  rewrite Hfs, fs_translation_english in Htr.
  vm_compute in Htr. discriminate Htr.
Qed.

Example cr_answer_file_and_response :
  let run := upload_and_transcribe Scenarios.be_cr_answer
               Scenarios.CLIP_MP4 Scenarios.VIDEO Scenarios.st0 in
  fs run.2 !! english_transcription_file_of Scenarios.CLIP_MP4
  = Some (HEADER_EN ++ [LF]
          ++ utf8 "[0.00s - 2.50s] Hello." ++ [CR] ++ utf8 "Goodbye." ++ [LF])
  /\ exists t,
       run.1 = JSONResponse 200 t
                 (HEADER_EN ++ [LF]
                  ++ utf8 "[0.00s - 2.50s] Hello." ++ [LF]
                  ++ utf8 "Goodbye." ++ [LF]).
Proof. split; [by vm_compute|]. eexists. by vm_compute. Qed.

(** C4, amended. The two strings of a success response are the texts of
    the transcript file and of the translation file as a text-mode read
    gives them when the run ends, and those files are the ones this run
    wrote: the response is read back from them. A text-mode read gives
    every carriage return, alone or before a line feed, as a line feed
    ([universal_newlines]); when a file holds no carriage return, the
    string is exactly its content. *)
Theorem C4_response_is_file_text (be : backend) (filename : pystr)
    (content : list N) (st st' : state) (code : Z) (t tr : pystr) :
  upload_and_transcribe be filename content st = (JSONResponse code t tr, st') ->
  file_text st' (transcription_file_of filename) = Some t
  /\ file_text st' (english_transcription_file_of filename) = Some tr
  /\ exists audio segs,
       stages_ok be filename content audio segs
       /\ fs st' !! transcription_file_of filename
          = Some (transcript_artifact segs)
       /\ fs st' !! english_transcription_file_of filename
          = Some (translation_artifact be segs)
       /\ t = universal_newlines (transcript_artifact segs)
       /\ tr = universal_newlines (translation_artifact be segs)
       /\ (CR ∉ transcript_artifact segs -> t = transcript_artifact segs)
       /\ (CR ∉ translation_artifact be segs ->
           tr = translation_artifact be segs).
Proof.
  intros E.
  destruct (success_inv _ _ _ _ _ _ _ _ E)
    as (audio & segs & Hok & _ & -> & -> & Hfs & _).
  unfold file_text. rewrite Hfs, fs_translation_transcript,
    fs_translation_english.
  split; [done|]. split; [done|]. exists audio, segs.
  split; [exact Hok|]. do 4 (split; [done|]).
  split; intros Hcr; by rewrite universal_newlines_id.
Qed.

Lemma C4_response_is_file_text_witness :
  exists (st' : state) (t tr : pystr),
    upload_and_transcribe Scenarios.be_cr_answer Scenarios.CLIP_MP4
                          Scenarios.VIDEO Scenarios.st0
    = (JSONResponse 200 t tr, st')
    /\ file_text st' (transcription_file_of Scenarios.CLIP_MP4) = Some t
    /\ file_text st' (english_transcription_file_of Scenarios.CLIP_MP4)
       = Some tr.
Proof.
  destruct (upload_completes Scenarios.be_cr_answer Scenarios.CLIP_MP4
              Scenarios.VIDEO Scenarios.st0 _ _ cr_answer_stages_ok)
    as (st' & E & _).
  destruct (C4_response_is_file_text _ _ _ _ _ _ _ _ E) as (H1 & H2 & _).
  exists st'. do 2 eexists.
  split; [exact E|]. split; [exact H1|exact H2].
Defined.

(** C5, as stated, fails: the decoder failing and Whisper failing with
    the same message give the same response, so the response does not
    name the stage. *)
Lemma C5_counterexample :
  ~ Stated.stage_named Scenarios.be_decoder_down Scenarios.be_whisper_down
      Scenarios.CLIP_MP4 Scenarios.VIDEO Scenarios.st0.
Proof.
  intros H. apply (H AudioExtraction Transcription).
  - by vm_compute.
  - by vm_compute.
  - discriminate.
  - by vm_compute.
Qed.

(** C5, amended. A run that fails, at whatever stage and for whatever
    reason (a service raising, a file that cannot be opened for writing
    or for reading back, a line of the transcript that cannot be
    encoded), gives the caller one failure response: status 500 with
    the fixed text [STT_FAILED] followed by the message of the
    exception, which is also the last record of the log; the stage is
    not named. Nothing raised inside the [try] of the translation loop
    is fatal. A run that does not fail gives the success response with
    the full texts of both artifacts. *)
Theorem C5_single_failure_response (be : backend) (filename : pystr)
    (content : list N) (st : state) :
  match failed_at be filename content st with
  | Some s =>
      exists msg,
        stage_message be filename content s msg
        /\ s <> Translation
        /\ (upload_and_transcribe be filename content st).1
           = HTTPException 500 (STT_FAILED ++ msg)
        /\ last (log (upload_and_transcribe be filename content st).2)
           = Some (ERROR, STT_FAILED ++ msg)
  | None =>
      exists audio segs,
        stages_ok be filename content audio segs
        /\ (upload_and_transcribe be filename content st).1
           = JSONResponse 200 (universal_newlines (transcript_artifact segs))
                          (universal_newlines (translation_artifact be segs))
  end.
Proof.
  unfold failed_at, upload_and_transcribe.
  destruct (stt_body_run_case be filename content st);
    cbn [origin message fst snd log]; eauto 10.
  all: eexists; split; [cbn [stage_message]; eauto 10|];
    split; [discriminate|]; split; [reflexivity|apply last_snoc].
Qed.

(** The runs of [Scenarios.be_surrogate_text] and
    [Scenarios.be_unreadable], computed: a segment text that cannot be
    encoded stops the transcript after the lines before it, and a file
    that cannot be read back fails the run after both artifacts were
    written; both end in the common failure response. *)
Example fatal_write_and_read :
  let run1 := upload_and_transcribe Scenarios.be_surrogate_text
                Scenarios.CLIP_MP4 Scenarios.VIDEO Scenarios.st0 in
  let run2 := upload_and_transcribe Scenarios.be_unreadable
                Scenarios.CLIP_MP4 Scenarios.VIDEO Scenarios.st0 in
  run1.1
  = HTTPException 500
      (STT_FAILED
       ++ utf8 "'utf-8' codec can't encode character '\ud83d' in position 22: surrogates not allowed")
  /\ fs run1.2 !! transcription_file_of Scenarios.CLIP_MP4
     = Some (HEADER_KO ++ [LF]
             ++ utf8 "[0.00s - 2.50s] " ++ Scenarios.TEXT0 ++ [LF])
  /\ fs run1.2 !! english_transcription_file_of Scenarios.CLIP_MP4 = None
  /\ run2.1 = HTTPException 500 (STT_FAILED ++ Scenarios.PERMISSION_DENIED)
  /\ fs run2.2 !! english_transcription_file_of Scenarios.CLIP_MP4
     = Some (HEADER_EN ++ [LF] ++ utf8 "[0.00s - 2.50s] Hello." ++ [LF]).
Proof. by vm_compute. Qed.

(** C6 does not hold of the code: when the clip opens and
    [write_audiofile] raises, the run fails with the clip handle still
    open, since [audio_clip.close()] is only reached when the waveform
    was written. *)
Theorem C6_clip_left_open (be : backend) (filename : pystr)
    (content : list N) (st : state) (msg : pystr) :
  open_error be (video_path_of filename) = None ->
  AudioFileClip be content = Done tt ->
  write_audiofile be content = Failed msg ->
  (upload_and_transcribe be filename content st).1
  = HTTPException 500 (STT_FAILED ++ msg)
  /\ open_clips (upload_and_transcribe be filename content st).2
     = S (open_clips st).
Proof.
  intros Hv Hc Ha. unfold upload_and_transcribe.
  destruct (stt_body_run_case be filename content st); settle_oracles.
  by cbn [fst snd message open_clips].
Qed.

Lemma C6_clip_left_open_witness :
  (upload_and_transcribe Scenarios.be_audio_write_fails Scenarios.CLIP_MP4
                         Scenarios.VIDEO Scenarios.st0).1
  = HTTPException 500 (STT_FAILED ++ Scenarios.BROKEN_PIPE)
  /\ open_clips (upload_and_transcribe Scenarios.be_audio_write_fails
                   Scenarios.CLIP_MP4 Scenarios.VIDEO Scenarios.st0).2
     = 1%nat.
Proof.
  apply (C6_clip_left_open Scenarios.be_audio_write_fails Scenarios.CLIP_MP4
           Scenarios.VIDEO Scenarios.st0 Scenarios.BROKEN_PIPE);
    reflexivity.
Defined.

(** On every other path the handle is closed or was never opened. *)
Lemma clip_closed_otherwise (be : backend) (filename : pystr)
    (content : list N) (st : state) :
  (forall msg, ~ (AudioFileClip be content = Done tt
                  /\ write_audiofile be content = Failed msg)) ->
  open_clips (upload_and_transcribe be filename content st).2 = open_clips st.
Proof.
  intros Hno. unfold upload_and_transcribe.
  destruct (stt_body_run_case be filename content st);
    cbn [snd open_clips]; try done.
  by destruct (Hno msg).
Qed.



(** C8, as stated, fails: an empty upload is written to disk and handed
    to the decoder; with a decoder that rejects it the run fails at audio
    extraction, after the file was stored. *)
Lemma C8_counterexample :
  ~ Stated.empty_upload_rejected Scenarios.be_rejects_empty
      Scenarios.CLIP_MP4 Scenarios.st0.
Proof. intros (_ & H & _). apply H. by vm_compute. Qed.

(** C8, amended. The handler does not look at the size of the upload: an
    empty file is stored under the upload folder like any other and
    handed to the decoder. When the decoder rejects it, the run fails at
    audio extraction with the common failure response carrying the
    decoder's message, and the empty video file stays on disk; when the
    services accept it, the run completes. *)
Theorem C8_empty_upload_reaches_decoder (be : backend) (filename : pystr)
    (st : state) :
  (forall msg,
      open_error be (video_path_of filename) = None ->
      AudioFileClip be [] = Failed msg ->
      (upload_and_transcribe be filename [] st).1
      = HTTPException 500 (STT_FAILED ++ msg)
      /\ failed_at be filename [] st = Some AudioExtraction
      /\ fs (upload_and_transcribe be filename [] st).2
         = <[video_path_of filename := []]> (fs st))
  /\ (forall audio segs,
        stages_ok be filename [] audio segs ->
        exists t tr,
          (upload_and_transcribe be filename [] st).1 = JSONResponse 200 t tr).
Proof.
  split.
  - intros msg Hv Hc. unfold upload_and_transcribe, failed_at.
    destruct (stt_body_run_case be filename [] st); settle_oracles.
    by cbn [fst snd message origin fs].
  - intros audio segs Hok.
    destruct (upload_completes _ _ _ st _ _ Hok) as (st' & E & _).
    rewrite E. eauto.
Qed.

Lemma C8_empty_upload_reaches_decoder_witness :
  (upload_and_transcribe Scenarios.be_rejects_empty Scenarios.CLIP_MP4 []
                         Scenarios.st0).1
  = HTTPException 500 (STT_FAILED ++ Scenarios.NO_DURATION)
  /\ failed_at Scenarios.be_rejects_empty Scenarios.CLIP_MP4 [] Scenarios.st0
     = Some AudioExtraction
  /\ fs (upload_and_transcribe Scenarios.be_rejects_empty Scenarios.CLIP_MP4
           [] Scenarios.st0).2
     = <[video_path_of Scenarios.CLIP_MP4 := []]> (fs Scenarios.st0).
Proof.
  apply (C8_empty_upload_reaches_decoder Scenarios.be_rejects_empty
           Scenarios.CLIP_MP4 Scenarios.st0); reflexivity.
Defined.

(* ===================================================================== *)
(** ** The user registry *)
(* ===================================================================== *)

Module UsersFacts.

Local Open Scope Z_scope.

Lemma existsb_elem_of {A} (f : A -> bool) (l : list A) :
  existsb f l = true <-> exists x, x ∈ l /\ f x = true.
Proof.
  rewrite existsb_exists. split; intros (x & Hin & Hx); exists x;
    (split; [by apply list_elem_of_In|done]).
Qed.

Lemma username_taken_existsb (name : pystr) (d : db) :
  username_taken name d <-> existsb (has_username name) (users d) = true.
Proof.
  rewrite existsb_elem_of. unfold username_taken, has_username.
  split; intros (r & Hin & Hr); exists r; split; try done.
  - by apply bool_decide_eq_true.
  - by apply bool_decide_eq_true in Hr.
Qed.

Lemma user_id_present_existsb (id : Z) (d : db) :
  user_id_present id d <-> existsb (has_user_id id) (users d) = true.
Proof.
  rewrite existsb_elem_of. unfold user_id_present, has_user_id.
  split; intros (r & Hin & Hr); exists r; split; try done.
  - by apply bool_decide_eq_true.
  - by apply bool_decide_eq_true in Hr.
Qed.

Lemma find_None_existsb {A} (f : A -> bool) (l : list A) :
  find f l = None <-> existsb f l = false.
Proof.
  induction l as [|x l IH]; simpl; [done|].
  destruct (f x); simpl; [split; discriminate|exact IH].
Qed.

(** The duplicate check finds a row exactly when the name is taken. *)
Lemma select_by_username_None (name : pystr) (d : db) :
  select_user_id_by_username name d = None <-> ~ username_taken name d.
Proof.
  unfold select_user_id_by_username.
  rewrite fmap_None, find_None_existsb, username_taken_existsb.
  by destruct (existsb (has_username name) (users d)).
Qed.

(** When the name is free, the table takes the row exactly when it
    fits. *)
Lemma insertable_fits (data : UserCreate.t) (d : db) :
  ~ username_taken (UserCreate.username data) d ->
  insertable (UserCreate.username data) (UserCreate.password data) d = true
  <-> fits data d.
Proof.
  intros Hfree. unfold insertable, fits.
  rewrite username_taken_existsb in Hfree.
  rewrite user_id_present_existsb.
  rewrite !andb_true_iff, !bool_decide_eq_true, !negb_true_iff.
  destruct (existsb (has_username _) (users d)); [done|].
  destruct (existsb (has_user_id _) (users d)); intuition congruence.
Qed.

Lemma fold_max_ge (l : list Z) :
  forall a : Z, a <= fold_left Z.max l a
                /\ Forall (fun x => x <= fold_left Z.max l a) l.
Proof.
  induction l as [|x l IH]; intros a; simpl; [split; [lia|constructor]|].
  destruct (IH (Z.max a x)) as [H1 H2]. split; [lia|].
  constructor; [lia|done].
Qed.

Lemma fold_max_in (l : list Z) :
  forall a : Z, fold_left Z.max l a ∈ a :: l.
Proof.
  induction l as [|x l IH]; intros a; simpl; [set_solver|].
  specialize (IH (Z.max a x)). set_unfold.
  destruct IH as [H|H]; [|by auto].
  rewrite H. destruct (Z.max_spec a x) as [[_ ->]|[_ ->]]; auto.
Qed.

(** [SELECT MAX(user_id)] gives an id of the table that no other id
    exceeds. *)
Lemma select_max_spec (d : db) (m : Z) :
  select_max_user_id d = Some m <->
  user_id_present m d /\ (forall r, r ∈ users d -> row_user_id r <= m).
Proof.
  unfold select_max_user_id, user_id_present.
  destruct (users d) as [|r0 rest].
  { split; [discriminate|]. intros [(r & Hin & _) _]. set_solver. }
  destruct (fold_max_ge (map row_user_id rest) (row_user_id r0)) as [Hge Hall].
  pose proof (fold_max_in (map row_user_id rest) (row_user_id r0)) as Hin.
  set (mx := fold_left Z.max (map row_user_id rest) (row_user_id r0)) in *.
  assert (Hbound : forall r, r ∈ r0 :: rest -> row_user_id r <= mx).
  { intros r Hr. apply elem_of_cons in Hr as [->|Hr]; [done|].
    rewrite Forall_forall in Hall. apply Hall.
    apply list_elem_of_fmap. eauto. }
  assert (Hpresent : exists r, r ∈ r0 :: rest /\ row_user_id r = mx).
  { apply elem_of_cons in Hin as [Hin|Hin].
    - exists r0. split; [set_solver|done].
    - apply list_elem_of_fmap in Hin as (r & -> & Hr).
      exists r. split; [set_solver|done]. }
  split.
  - intros [= <-]. done.
  - intros [(r & Hr & Hid) Hle]. f_equal.
    destruct Hpresent as (r' & Hr' & Hid').
    specialize (Hle r' Hr'). specialize (Hbound r Hr). lia.
Qed.

Lemma insert_done (name pw : pystr) (d d1 : db) :
  insert name pw d = (Done tt, d1) ->
  insertable name pw d = true
  /\ d1 = Db (users d ++ [Row (next_user_id d) name pw]) (next_user_id d + 1).
Proof.
  unfold insert. destruct (insertable name pw d); [|discriminate].
  by intros [= <-].
Qed.

Lemma sequence_used_bounds (d : db) :
  next_user_id d <= sequence_used d <= next_user_id d + 1.
Proof. unfold sequence_used. case_bool_decide; lia. Qed.

(** A refused row leaves the rows as they were; the sequence may have
    moved on by one. *)
Lemma insert_failed (name pw msg : pystr) (d d1 : db) :
  insert name pw d = (Failed msg, d1) ->
  insertable name pw d = false
  /\ users d1 = users d
  /\ next_user_id d <= next_user_id d1 <= next_user_id d + 1.
Proof.
  unfold insert. destruct (insertable name pw d); [discriminate|].
  intros [= <- <-]. simpl. split; [done|]. split; [done|].
  apply sequence_used_bounds.
Qed.

(** [create_user] leaves the rows as they were or appends the new row;
    the sequence never goes back. *)
Lemma create_user_table (data : UserCreate.t) (d : db) :
  (users (create_user data d).2 = users d
   /\ next_user_id d <= next_user_id (create_user data d).2
      <= next_user_id d + 1)
  \/ (create_user data d).2
     = Db (users d ++ [new_row data d]) (next_user_id d + 1).
Proof.
  unfold create_user.
  destruct (select_user_id_by_username _ d); [left; simpl; split; [done|lia]|].
  destruct (insert _ _ d) as [[[]|msg] d1] eqn:E.
  - apply insert_done in E as [_ ->]. right. cbv zeta.
    by destruct (select_max_user_id _).
  - apply insert_failed in E as (_ & Hu & Hn). by left.
Qed.

(** A sign-up committed in between only appends, and only a row with a
    fresh identity value. *)
Lemma other_signup_grows (d : db) (o : UserCreate.t) :
  exists extra,
    users (other_signup d o) = users d ++ extra
    /\ Forall (fun r => next_user_id d <= row_user_id r) extra
    /\ next_user_id d <= next_user_id (other_signup d o)
    /\ (db_wf d -> db_wf (other_signup d o)).
Proof.
  unfold other_signup.
  destruct (create_user_table o d) as [[Hu Hn] | ->].
  - exists []. rewrite app_nil_r.
    split; [done|]. split; [constructor|]. split; [lia|].
    unfold db_wf. rewrite Hu. intros Hwf.
    eapply Forall_impl; [exact Hwf|]. simpl. intros r Hr. lia.
  - exists [new_row o d]. simpl.
    split; [done|]. split; [repeat constructor; simpl; lia|]. split; [lia|].
    unfold db_wf. simpl. intros Hwf. apply Forall_app. split.
    + eapply Forall_impl; [exact Hwf|]. simpl. intros r Hr. lia.
    + repeat constructor. simpl. lia.
Qed.

Lemma fold_other_signup_grows (between : list UserCreate.t) :
  forall d : db,
  exists extra,
    users (fold_left other_signup between d) = users d ++ extra
    /\ Forall (fun r => next_user_id d <= row_user_id r) extra
    /\ (db_wf d -> db_wf (fold_left other_signup between d)).
Proof.
  induction between as [|o rest IH]; intros d; simpl.
  { exists []. rewrite app_nil_r. repeat split; [constructor|done]. }
  destruct (other_signup_grows d o) as (e1 & Hu1 & Hf1 & Hn1 & Hw1).
  destruct (IH (other_signup d o)) as (e2 & Hu2 & Hf2 & Hw2).
  exists (e1 ++ e2). rewrite Hu2, Hu1, app_assoc.
  repeat split; [|by auto].
  apply Forall_app. split; [done|].
  eapply Forall_impl; [exact Hf2|]. simpl. intros r Hr. lia.
Qed.

(** What a returning [create_user] did. *)
Lemma create_user_among_returned (between : list UserCreate.t)
    (data : UserCreate.t) (d d' : db) (u : User.t) :
  create_user_among between data d = (Returned u, d') ->
  ~ username_taken (UserCreate.username data) d
  /\ fits data d
  /\ d' = fold_left other_signup between
                    (Db (users d ++ [new_row data d]) (next_user_id d + 1))
  /\ select_max_user_id d' = Some (User.user_id u)
  /\ User.username u = UserCreate.username data.
Proof.
  unfold create_user_among.
  destruct (select_user_id_by_username _ d) eqn:Hsel; [discriminate|].
  apply select_by_username_None in Hsel.
  destruct (insert _ _ d) as [[[]|msg] d1] eqn:E; [|discriminate].
  apply insert_done in E as [Hins ->].
  apply insertable_fits in Hins; [|done].
  fold (new_row data d). cbv zeta.
  destruct (select_max_user_id _) as [m|] eqn:Hmax; [|discriminate].
  intros [= <- <-]. done.
Qed.

(** Served alone on a table whose ids all came from the sequence,
    [create_user] returns the id of the row it inserted. *)
Lemma create_user_alone (data : UserCreate.t) (d d' : db) (u : User.t) :
  db_wf d ->
  create_user data d = (Returned u, d') ->
  User.user_id u = next_user_id d.
Proof.
  intros Hwf E. change (create_user_among [] data d = (Returned u, d')) in E.
  apply create_user_among_returned in E as (_ & _ & -> & Hmax & _).
  simpl in Hmax. apply select_max_spec in Hmax as [(r & Hr & Hid) Hle].
  simpl in Hr, Hle.
  assert (Hn : next_user_id d <= User.user_id u).
  { apply (Hle (new_row data d)).
    rewrite elem_of_app, list_elem_of_singleton. auto. }
  apply elem_of_app in Hr as [Hr|Hr].
  - unfold db_wf in Hwf. rewrite Forall_forall in Hwf.
    specialize (Hwf r Hr). lia.
  - apply list_elem_of_singleton in Hr as ->. by rewrite <- Hid.
Qed.

End UsersFacts.

Import UsersFacts.


(** The refused row leaves Alice and Bob as they were but uses up the
    identity value 3: Carol, signing up next, gets 4. *)
Example long_name_refused :
  let d := (create_user Scenarios.LONG_NAME Scenarios.db0).2 in
  (create_user Scenarios.LONG_NAME Scenarios.db0).1
  = ServerError CONSTRAINT_VIOLATION
  /\ users d = users Scenarios.db0
  /\ (create_user Scenarios.CAROL d).1
     = Returned (User.Make 4 (UserCreate.username Scenarios.CAROL)).
Proof. by vm_compute. Qed.



(** C10. The [user_id] of a successful [create_user] response is the
    largest [user_id] of the table as it stands when [SELECT MAX(user_id)]
    runs, after the insert and after whatever other sign-ups were
    committed in between; it is not read off the inserted row. The
    inserted row has the identity value the table had ready, and the two
    agree exactly when no row of the table has a larger id, which for a
    table whose ids all came from the sequence means exactly when no row
    was inserted between the insert and the query. *)
Theorem C10_response_id_is_table_max (between : list UserCreate.t)
    (data : UserCreate.t) (d d' : db) (u : User.t) :
  create_user_among between data d = (Returned u, d') ->
  select_max_user_id d' = Some (User.user_id u)
  /\ (forall r, r ∈ users d' -> (row_user_id r <= User.user_id u)%Z)
  /\ new_row data d ∈ users d'
  /\ (User.user_id u = next_user_id d
      <-> forall r, r ∈ users d' -> (row_user_id r <= next_user_id d)%Z)
  /\ (db_wf d ->
      (User.user_id u = next_user_id d
       <-> users d' = users d ++ [new_row data d])).
Proof.
  intros E.
  apply create_user_among_returned in E as (_ & _ & -> & Hmax & _).
  set (d1 := Db (users d ++ [new_row data d]) (next_user_id d + 1)) in *.
  destruct (fold_other_signup_grows between d1) as (extra & Hu & Hextra & _).
  set (d' := fold_left other_signup between d1) in *.
  pose proof Hmax as Hspec. apply select_max_spec in Hspec as [Hpres Hle].
  assert (Hnew : new_row data d ∈ users d').
  { rewrite Hu. simpl. rewrite !elem_of_app, list_elem_of_singleton. auto. }
  assert (Hiff : User.user_id u = next_user_id d
                 <-> forall r, r ∈ users d' -> (row_user_id r <= next_user_id d)%Z).
  { split.
    - intros <-. exact Hle.
    - intros Hall. destruct Hpres as (r & Hr & Hid).
      specialize (Hall r Hr). specialize (Hle _ Hnew). simpl in Hle. lia. }
  split; [done|]. split; [done|]. split; [done|]. split; [done|].
  intros Hwf. rewrite Hiff. split.
  - intros Hall. rewrite Hu. simpl.
    destruct extra as [|r extra]; [by rewrite app_nil_r|]. exfalso.
    apply Forall_cons in Hextra as [Hr _]. simpl in Hr.
    assert (Hin : r ∈ users d')
      by (rewrite Hu, elem_of_app, elem_of_cons; auto).
    specialize (Hall r Hin). lia.
  - intros Heq r Hr. rewrite Heq in Hr.
    apply elem_of_app in Hr as [Hr|Hr].
    + unfold db_wf in Hwf. rewrite Forall_forall in Hwf.
      specialize (Hwf r Hr). lia.
    + apply list_elem_of_singleton in Hr as ->. simpl. lia.
Qed.

(** Carol signs up while Dave's sign-up is committed between her insert
    and her query: her row has id 3, her response says 4. *)
Lemma C10_response_id_is_table_max_witness :
  exists (u : User.t) (d' : db),
    create_user_among [Scenarios.DAVE] Scenarios.CAROL Scenarios.db0
    = (Returned u, d')
    /\ select_max_user_id d' = Some (User.user_id u)
    /\ new_row Scenarios.CAROL Scenarios.db0 ∈ users d'
    /\ User.user_id u = 4%Z
    /\ row_user_id (new_row Scenarios.CAROL Scenarios.db0) = 3%Z.
Proof.
  eexists _, _. split; [by vm_compute|].
  match goal with
  | |- context [select_max_user_id ?d = Some (User.user_id ?u)] =>
      destruct (C10_response_id_is_table_max [Scenarios.DAVE] Scenarios.CAROL
                  Scenarios.db0 d u) as (Hmax & _ & Hnew & _)
  end.
  - by vm_compute.
  - split; [exact Hmax|]. split; [exact Hnew|]. split; reflexivity.
Defined.

(* ===================================================================== *)
(** ** Further facts: the paths of a run *)
(* ===================================================================== *)

Module PathFacts.

Lemma join_absolute (a b : pystr) :
  startswith_sep b = true -> join a b = b.
Proof. intros H. unfold join. by rewrite H. Qed.

Lemma join_upload_relative (b : pystr) :
  startswith_sep b = false -> join UPLOAD_FOLDER b = UPLOAD_FOLDER ++ SEP :: b.
Proof. intros H. unfold join. by rewrite H. Qed.

Lemma join_audio_relative (b : pystr) :
  startswith_sep b = false -> join AUDIO_FOLDER b = AUDIO_FOLDER ++ SEP :: b.
Proof. intros H. unfold join. by rewrite H. Qed.

(** [root + ext == p], as the documentation of [splitext] promises. *)
Lemma splitext_reassemble (p : pystr) :
  (splitext p).1 ++ (splitext p).2 = p.
Proof.
  unfold splitext.
  destruct (rfind SEP p <? rfind EXTSEP p)%Z; simpl; [|by rewrite app_nil_r].
  destruct (existsb _ _); simpl; [apply take_drop|by rewrite app_nil_r].
Qed.

(** The stem is a prefix of the name. *)
Lemma splitext_stem_prefix (p : pystr) : (splitext p).1 `prefix_of` p.
Proof. exists (splitext p).2. by rewrite splitext_reassemble. Qed.

(** A name that is not absolute has a stem that is not, and stays so
    with a suffix that does not start with the separator. *)
Lemma stem_suffix_relative (p suffix : pystr) :
  startswith_sep p = false ->
  startswith_sep suffix = false ->
  startswith_sep ((splitext p).1 ++ suffix) = false.
Proof.
  intros Hp Hs. destruct (splitext_stem_prefix p) as [ext Hext].
  destruct (splitext p).1 as [|c stem]; [done|].
  rewrite Hext in Hp. exact Hp.
Qed.

(** Two artifacts named from one stem by different suffixes lie at
    different paths. *)
Lemma join_suffix_differ (a stem x y : pystr) :
  x <> y ->
  startswith_sep x = startswith_sep y ->
  join a (stem ++ x) <> join a (stem ++ y).
Proof.
  intros Hxy Hs. unfold join.
  assert (Hh : startswith_sep (stem ++ x) = startswith_sep (stem ++ y))
    by (by destruct stem).
  rewrite <- Hh.
  destruct (startswith_sep (stem ++ x));
    [|destruct (bool_decide (a = []) || endswith_sep a)];
    intros E; simplify_list_eq.
Qed.

End PathFacts.

Import PathFacts.

(* ===================================================================== *)
(** ** Further facts: the files and the log of a run *)
(* ===================================================================== *)

Module StoreFacts.

Lemma audio_transcript_differ (filename : pystr) :
  audio_path_of filename <> transcription_file_of filename.
Proof. by apply join_suffix_differ. Qed.

Lemma audio_english_differ (filename : pystr) :
  audio_path_of filename <> english_transcription_file_of filename.
Proof. by apply join_suffix_differ. Qed.

(** For a name that is not absolute, the video lies under the upload
    folder and the three artifacts under the audio folder. *)
Lemma video_path_apart (filename : pystr) :
  startswith_sep filename = false ->
  video_path_of filename <> audio_path_of filename
  /\ video_path_of filename <> transcription_file_of filename
  /\ video_path_of filename <> english_transcription_file_of filename.
Proof.
  intros Hrel.
  unfold video_path_of, audio_path_of, transcription_file_of,
    english_transcription_file_of.
  rewrite (join_upload_relative _ Hrel).
  rewrite !join_audio_relative by (by apply stem_suffix_relative).
  repeat split; discriminate.
Qed.

(** The four files of a completed run, read one by one. *)
Lemma fs_translation_audio (be : backend) (filename : pystr)
    (content audio : list N) (segs : list segment) (m : gmap pystr (list N)) :
  fs_translation be filename content audio segs m !! audio_path_of filename
  = Some audio.
Proof.
  unfold fs_translation, fs_transcript, fs_audio.
  rewrite lookup_insert_ne by (symmetry; apply audio_english_differ).
  rewrite lookup_insert_ne by (symmetry; apply audio_transcript_differ).
  apply lookup_insert_eq.
Qed.

Lemma fs_translation_video (be : backend) (filename : pystr)
    (content audio : list N) (segs : list segment) (m : gmap pystr (list N)) :
  startswith_sep filename = false ->
  fs_translation be filename content audio segs m !! video_path_of filename
  = Some content.
Proof.
  intros Hrel. destruct (video_path_apart _ Hrel) as (H1 & H2 & H3).
  unfold fs_translation, fs_transcript, fs_audio, fs_video.
  rewrite !lookup_insert_ne by done. apply lookup_insert_eq.
Qed.

(** Writing the four files over themselves changes nothing. *)
Lemma fs_translation_idem (be : backend) (filename : pystr)
    (content audio : list N) (segs : list segment) (m : gmap pystr (list N)) :
  fs_translation be filename content audio segs
    (fs_translation be filename content audio segs m)
  = fs_translation be filename content audio segs m.
Proof.
  apply map_eq. intros p.
  unfold fs_translation, fs_transcript, fs_audio, fs_video.
  rewrite !lookup_insert. repeat case_decide; congruence.
Qed.

(** The result of the [try] block is decided by the services alone. *)
Lemma run_case_result (be : backend) (filename : pystr) (content : list N)
    (st1 st2 : state) (o1 o2 : result (pystr * pystr) * state) :
  run_case be filename content st1 o1 ->
  run_case be filename content st2 o2 ->
  o1.1 = o2.1.
Proof.
  intros H1 H2. destruct H1; destruct H2; settle_oracles;
    try match goal with
        | H : stages_ok _ _ _ _ _ |- _ =>
            destruct H as (? & ? & ? & ? & ? & ? & ? & ? & ?); settle_oracles
        end;
    reflexivity.
Qed.

(** The state a completed run ends in, log included. *)
Lemma stt_body_completed (be : backend) (filename : pystr) (content : list N)
    (st : state) (audio : list N) (segs : list segment) :
  stages_ok be filename content audio segs ->
  stt_body be filename content st
  = (Ok (universal_newlines (transcript_artifact segs),
         universal_newlines (translation_artifact be segs)),
     State (fs_translation be filename content audio segs (fs st))
           (log st ++ completed_log be filename segs)
           (open_clips st)).
Proof.
  intros (Hv & Hc & Ha & Hs & Ht & He & Hu & Hrt & Hre).
  destruct header_encodable as [HKO HEN].
  unfold stt_body. pure_step.
  step_by open_w_ok. step_by f_write_bytes_at. pure_step.
  step_by read_bytes_at.
  rewrite insert_insert_eq, app_nil_l.
  step_by @call_done. pure_step. step_by @call_done. do 4 pure_step.
  step_by read_bytes_at. step_by @call_done. do 2 pure_step.
  step_by open_w_ok.
  erewrite bind_ok
    by (apply f_write_at; [exact HKO|cbn [fs]; apply lookup_insert_eq]).
  cbv beta; cbn [fs log open_clips].
  erewrite bind_ok.
  2:{ erewrite write_segments_spec by (cbn [fs]; apply lookup_insert_eq).
      rewrite Hu. reflexivity. }
  cbv beta; cbn [fs log open_clips]. do 2 pure_step.
  rewrite !insert_insert_eq, app_nil_l.
  step_by open_w_ok.
  erewrite bind_ok
    by (apply f_write_at; [exact HEN|cbn [fs]; apply lookup_insert_eq]).
  cbv beta; cbn [fs log open_clips].
  erewrite bind_ok
    by (apply translate_segments_spec;
        [by apply transcript_error_None|cbn [fs]; apply lookup_insert_eq]).
  cbv beta; cbn [fs log open_clips]. do 2 pure_step.
  rewrite !insert_insert_eq, app_nil_l.
  erewrite bind_ok.
  2:{ apply read_text_at; [exact Hrt|]. cbn [fs].
      rewrite lookup_insert_ne by (symmetry; apply artifact_paths_differ).
      apply lookup_insert_eq. }
  cbv beta.
  erewrite bind_ok
    by (apply read_text_at; [exact Hre|cbn [fs]; apply lookup_insert_eq]).
  cbv beta.
  unfold mret, M_ret, completed_log. cbn [Nat.pred].
  rewrite <- !app_assoc. reflexivity.
Qed.

End StoreFacts.

Import StoreFacts.

(* ===================================================================== *)
(** ** Further properties of [upload_and_transcribe] *)
(* ===================================================================== *)

(** X2. For every file name, the waveform, the transcript and the
    translation of a run lie at three different paths: none of them can
    overwrite another. *)
Theorem X2_artifact_paths_distinct (filename : pystr) :
  NoDup [audio_path_of filename; transcription_file_of filename;
         english_transcription_file_of filename].
Proof.
  repeat constructor; rewrite ?not_elem_of_cons; repeat split;
    try apply not_elem_of_nil.
  - apply audio_transcript_differ.
  - apply audio_english_differ.
  - apply artifact_paths_differ.
Qed.

(** X3. A completed run cleans nothing up: the extracted waveform is
    still stored when it ends, and so is the uploaded video when the
    file name is a plain name, without a path separator in it. *)
Theorem X3_intermediate_files_kept (be : backend) (filename : pystr)
    (content : list N) (st : state) (audio : list N) (segs : list segment) :
  stages_ok be filename content audio segs ->
  fs (upload_and_transcribe be filename content st).2
     !! audio_path_of filename = Some audio
  /\ (SEP ∉ filename ->
      fs (upload_and_transcribe be filename content st).2
         !! video_path_of filename = Some content).
Proof.
  intros Hok.
  destruct (upload_completes _ _ _ st _ _ Hok) as (st' & -> & Hfs & _).
  cbn [snd]. rewrite Hfs. split.
  - apply fs_translation_audio.
  - intros Hplain. apply fs_translation_video.
    destruct filename as [|c rest]; [done|]. simpl.
    apply N.eqb_neq. intros ->. apply Hplain. left.
Qed.

Lemma X3_intermediate_files_kept_witness :
  fs (upload_and_transcribe Scenarios.be_second_fails Scenarios.CLIP_MP4
        Scenarios.VIDEO Scenarios.st0).2
     !! audio_path_of Scenarios.CLIP_MP4 = Some Scenarios.WAVEFORM
  /\ fs (upload_and_transcribe Scenarios.be_second_fails Scenarios.CLIP_MP4
          Scenarios.VIDEO Scenarios.st0).2
       !! video_path_of Scenarios.CLIP_MP4 = Some Scenarios.VIDEO.
Proof.
  destruct (X3_intermediate_files_kept Scenarios.be_second_fails
              Scenarios.CLIP_MP4 Scenarios.VIDEO Scenarios.st0
              Scenarios.WAVEFORM
              [Scenarios.SEG0; Scenarios.SEG1; Scenarios.SEG2]
              second_fails_stages_ok) as [Haudio Hvideo].
  split; [exact Haudio|]. apply Hvideo.
  apply (bool_decide_unpack _). vm_compute. reflexivity.
Defined.




(** X5. Running a completed run again, from the state the first run
    left, gives the same response and leaves the same files: every file
    is opened for writing afresh, so nothing of the first run is
    appended to or kept. *)
Theorem X5_rerun_same_result (be : backend) (filename : pystr)
    (content : list N) (st : state) (audio : list N) (segs : list segment) :
  stages_ok be filename content audio segs ->
  let first := upload_and_transcribe be filename content st in
  let second := upload_and_transcribe be filename content first.2 in
  second.1 = first.1 /\ fs second.2 = fs first.2.
Proof.
  intros Hok. cbv zeta. unfold upload_and_transcribe.
  rewrite (stt_body_completed _ _ _ st _ _ Hok). cbn [fst snd].
  rewrite (stt_body_completed _ _ _ _ _ _ Hok). cbn [fst snd fs].
  split; [done|]. apply fs_translation_idem.
Qed.

Lemma X5_rerun_same_result_witness :
  let first := upload_and_transcribe Scenarios.be_second_fails
                 Scenarios.CLIP_MP4 Scenarios.VIDEO Scenarios.st0 in
  let second := upload_and_transcribe Scenarios.be_second_fails
                  Scenarios.CLIP_MP4 Scenarios.VIDEO first.2 in
  second.1 = first.1 /\ fs second.2 = fs first.2.
Proof.
  exact (X5_rerun_same_result Scenarios.be_second_fails Scenarios.CLIP_MP4
           Scenarios.VIDEO Scenarios.st0 Scenarios.WAVEFORM
           [Scenarios.SEG0; Scenarios.SEG1; Scenarios.SEG2]
           second_fails_stages_ok).
Defined.

(** X6. The response of a run does not depend on the state it starts
    from: whatever files an earlier run left, also under the same names,
    and whatever the log holds, the caller receives the same answer. *)
Theorem X6_response_ignores_state (be : backend) (filename : pystr)
    (content : list N) (st1 st2 : state) :
  (upload_and_transcribe be filename content st1).1
  = (upload_and_transcribe be filename content st2).1.
Proof.
  pose proof (run_case_result _ _ _ _ _ _ _
                (stt_body_run_case be filename content st1)
                (stt_body_run_case be filename content st2)) as H.
  unfold upload_and_transcribe.
  destruct (stt_body be filename content st1) as [r1 s1].
  destruct (stt_body be filename content st2) as [r2 s2].
  simpl in H. subst r2. by destruct r1 as [[t tr]|e].
Qed.

(** X7. A run that fails deletes nothing it wrote: when the transcript
    was written (every line of it could be encoded) and the translation
    file cannot be opened, the caller gets the failure response while
    the complete transcript artifact and the waveform stay on disk. *)
Theorem X7_failed_run_leaves_files (be : backend) (filename : pystr)
    (content : list N) (st : state) (audio : list N) (segs : list segment)
    (msg : pystr) :
  open_error be (video_path_of filename) = None ->
  AudioFileClip be content = Done tt ->
  write_audiofile be content = Done audio ->
  transcribe be audio = Done segs ->
  open_error be (transcription_file_of filename) = None ->
  transcript_error segs = None ->
  open_error be (english_transcription_file_of filename) = Some msg ->
  (upload_and_transcribe be filename content st).1
  = HTTPException 500 (STT_FAILED ++ msg)
  /\ fs (upload_and_transcribe be filename content st).2
       !! transcription_file_of filename
     = Some (transcript_artifact segs)
  /\ fs (upload_and_transcribe be filename content st).2
       !! audio_path_of filename
     = Some audio.
Proof.
  intros Hv Hc Ha Hs Ht Hu He. unfold upload_and_transcribe.
  destruct (stt_body_run_case be filename content st); settle_oracles.
  cbn [fst snd message fs].
  match goal with H : fs _ = _ |- _ => rewrite H end.
  unfold fs_transcript, fs_audio.
  split; [done|]. split; [apply lookup_insert_eq|].
  rewrite lookup_insert_ne by (symmetry; apply audio_transcript_differ).
  apply lookup_insert_eq.
Qed.

Lemma X7_failed_run_leaves_files_witness :
  (upload_and_transcribe be_translation_refused Scenarios.CLIP_MP4
     Scenarios.VIDEO Scenarios.st0).1
  = HTTPException 500 (STT_FAILED ++ Scenarios.NO_MEMORY)
  /\ fs (upload_and_transcribe be_translation_refused Scenarios.CLIP_MP4
          Scenarios.VIDEO Scenarios.st0).2
       !! transcription_file_of Scenarios.CLIP_MP4
     = Some (transcript_artifact [Scenarios.SEG0])
  /\ fs (upload_and_transcribe be_translation_refused Scenarios.CLIP_MP4
          Scenarios.VIDEO Scenarios.st0).2
       !! audio_path_of Scenarios.CLIP_MP4
     = Some Scenarios.WAVEFORM.
Proof.
  apply (X7_failed_run_leaves_files be_translation_refused
           Scenarios.CLIP_MP4 Scenarios.VIDEO Scenarios.st0
           Scenarios.WAVEFORM [Scenarios.SEG0] Scenarios.NO_MEMORY);
    reflexivity.
Defined.

(* ===================================================================== *)
(** ** Further facts: logs, lines and digits *)
(* ===================================================================== *)

Module LineFacts.

Lemma filter_translation_errors (be : backend) (segs : list segment) :
  forall n : nat,
    List.filter is_error (translation_errors be n segs)
    = translation_errors be n segs.
Proof.
  induction segs as [|seg rest IH]; intros n; simpl; [done|].
  rewrite List.filter_app, IH. f_equal.
  unfold errors_of. by destruct (translated be n seg).
Qed.

Lemma filter_info_translation_errors (be : backend) (segs : list segment) :
  forall n : nat,
    List.filter (fun r => negb (is_error r)) (translation_errors be n segs)
    = [].
Proof.
  induction segs as [|seg rest IH]; intros n; simpl; [done|].
  rewrite List.filter_app, IH, app_nil_r.
  unfold errors_of. by destruct (translated be n seg).
Qed.

(** When every call fails, every line is the sentinel line. *)
Lemma translation_lines_all_failed (be : backend) (segs : list segment) :
  forall n : nat,
    (forall j seg, segs !! j = Some seg ->
                   exists e, ChatCompletion be (n + j) (seg_text seg) = Failed e) ->
    translation_lines be n segs = map sentinel_line segs.
Proof.
  induction segs as [|seg rest IH]; intros n H; simpl; [done|]. f_equal.
  - destruct (H 0%nat seg eq_refl) as [e He]. rewrite Nat.add_0_r in He.
    unfold translation_line, text_or_error, translated, sentinel_line,
      format_line.
    by rewrite He.
  - apply IH. intros j s Hj. destruct (H (S j) s Hj) as [e He].
    exists e. by rewrite Nat.add_succ_r in He.
Qed.

Lemma digits_value_acc (u : Decimal.uint) :
  forall acc : positive,
    fold_left (fun a c => 10 * a + (c - 48)) (uint_digits u) (Npos acc)
    = Npos (Pos.of_uint_acc u acc).
Proof.
  induction u; intros acc; simpl; try done;
    rewrite <- IHu; f_equal; lia.
Qed.

Lemma digits_value_uint (u : Decimal.uint) :
  digits_value (uint_digits u) = N.of_uint u.
Proof.
  unfold digits_value, N.of_uint.
  induction u; simpl; try done;
    rewrite <- digits_value_acc; f_equal.
Qed.

(** Reading back the numeral of a number gives the number. *)
Lemma digits_value_decimal (n : N) : digits_value (decimal n) = n.
Proof.
  unfold decimal. rewrite digits_value_uint. apply DecimalN.Unsigned.of_to.
Qed.

Lemma digits_value_two_digits (r : N) :
  r < 100 -> digits_value (two_digits r) = r.
Proof.
  intros Hr. unfold digits_value, two_digits. simpl.
  pose proof (N.div_mod r 10) as Hdm.
  generalize dependent (r / 10). generalize dependent (r mod 10).
  intros a b Hdm. lia.
Qed.

End LineFacts.

Import LineFacts.

(** X8. A completed run adds to the log its ten progress records and,
    between the eighth and the ninth, one [ERROR] record for each
    segment whose [try] block raised (the translation call failed, or
    its answer could not be encoded when written), in the order of the
    segments, made of the sentinel text and the message of what was
    raised; it adds no other [ERROR] record and removes nothing from the
    log. *)
Theorem X8_completed_run_log (be : backend) (filename : pystr)
    (content : list N) (st : state) (audio : list N) (segs : list segment) :
  stages_ok be filename content audio segs ->
  log (upload_and_transcribe be filename content st).2
  = log st ++ completed_log be filename segs
  /\ List.filter is_error (completed_log be filename segs)
     = translation_errors be 0 segs
  /\ length (List.filter (fun r => negb (is_error r))
                         (completed_log be filename segs)) = 10%nat.
Proof.
  intros Hok. unfold upload_and_transcribe.
  rewrite (stt_body_completed _ _ _ st _ _ Hok). cbn [snd log].
  split; [done|]. unfold completed_log.
  rewrite !List.filter_app, filter_translation_errors,
    filter_info_translation_errors.
  cbn [List.filter is_error fst negb]. by rewrite app_nil_r.
Qed.

Lemma X8_completed_run_log_witness :
  log (upload_and_transcribe Scenarios.be_surrogate_answer Scenarios.CLIP_MP4
         Scenarios.VIDEO Scenarios.st0).2
  = log Scenarios.st0
    ++ completed_log Scenarios.be_surrogate_answer Scenarios.CLIP_MP4
         [Scenarios.SEG0; Scenarios.SEG1; Scenarios.SEG2]
  /\ List.filter is_error
       (completed_log Scenarios.be_surrogate_answer Scenarios.CLIP_MP4
          [Scenarios.SEG0; Scenarios.SEG1; Scenarios.SEG2])
     = [(ERROR, TRANSLATION_FAILED ++ Scenarios.RATE_LIMIT);
        (ERROR,
         TRANSLATION_FAILED
         ++ utf8 "'utf-8' codec can't encode character '\ud83d' in position 24: surrogates not allowed")].
Proof.
  destruct (X8_completed_run_log Scenarios.be_surrogate_answer
              Scenarios.CLIP_MP4 Scenarios.VIDEO Scenarios.st0
              Scenarios.WAVEFORM
              [Scenarios.SEG0; Scenarios.SEG1; Scenarios.SEG2]
              surrogate_answer_stages_ok) as (Hlog & Herr & _).
  split; [exact Hlog|]. rewrite Herr. reflexivity.
Defined.

(** X9. A run in which every translation call fails still completes with
    the success response (status 200): the translation it returns is the
    transcript with the other header and the sentinel in front of every
    text. *)
Theorem X9_all_translations_fail (be : backend) (filename : pystr)
    (content : list N) (st : state) (audio : list N) (segs : list segment) :
  stages_ok be filename content audio segs ->
  (forall j seg, segs !! j = Some seg ->
                 exists e, ChatCompletion be j (seg_text seg) = Failed e) ->
  (upload_and_transcribe be filename content st).1
  = JSONResponse 200
      (universal_newlines (HEADER_KO ++ [LF] ++ concat (map transcript_line segs)))
      (universal_newlines (HEADER_EN ++ [LF] ++ concat (map sentinel_line segs))).
Proof.
  intros Hok Hfail.
  destruct (upload_completes _ _ _ st _ _ Hok) as (st' & -> & _).
  cbn [fst]. unfold translation_artifact.
  by rewrite translation_lines_all_failed.
Qed.

Lemma chat_down_stages_ok :
  stages_ok be_chat_down Scenarios.CLIP_MP4 Scenarios.VIDEO
            Scenarios.WAVEFORM [Scenarios.SEG0; Scenarios.SEG1].
Proof. repeat split. Defined.

Lemma X9_all_translations_fail_witness :
  (upload_and_transcribe be_chat_down Scenarios.CLIP_MP4 Scenarios.VIDEO
     Scenarios.st0).1
  = JSONResponse 200
      (universal_newlines
         (HEADER_KO ++ [LF]
          ++ concat (map transcript_line [Scenarios.SEG0; Scenarios.SEG1])))
      (universal_newlines
         (HEADER_EN ++ [LF]
          ++ concat (map sentinel_line [Scenarios.SEG0; Scenarios.SEG1]))).
Proof.
  apply (X9_all_translations_fail be_chat_down Scenarios.CLIP_MP4
           Scenarios.VIDEO Scenarios.st0 Scenarios.WAVEFORM
           [Scenarios.SEG0; Scenarios.SEG1] chat_down_stages_ok).
  intros j seg _. exists Scenarios.RATE_LIMIT. reflexivity.
Defined.

(** X10. When Whisper returns no segment, the run completes, asks for no
    translation (the response is the same whatever the translation
    service would answer), and returns the two header lines alone. *)
Theorem X10_no_segments (be : backend) (filename : pystr)
    (content : list N) (st : state) (audio : list N)
    (any : nat -> pystr -> attempt pystr) :
  stages_ok be filename content audio [] ->
  (upload_and_transcribe be filename content st).1
  = JSONResponse 200 (HEADER_KO ++ [LF]) (HEADER_EN ++ [LF])
  /\ (upload_and_transcribe
        (Backend (open_error be) (AudioFileClip be) (write_audiofile be)
                 (transcribe be) any (read_error be))
        filename content st).1
     = (upload_and_transcribe be filename content st).1.
Proof.
  intros Hok.
  assert (Hok' : stages_ok
                   (Backend (open_error be) (AudioFileClip be)
                            (write_audiofile be) (transcribe be) any
                            (read_error be))
                   filename content audio []) by exact Hok.
  destruct (upload_completes _ _ _ st _ _ Hok) as (st1 & -> & _).
  destruct (upload_completes _ _ _ st _ _ Hok') as (st2 & -> & _).
  done.
Qed.

Lemma X10_no_segments_witness :
  (upload_and_transcribe be_silence Scenarios.CLIP_MP4 Scenarios.VIDEO
     Scenarios.st0).1
  = JSONResponse 200 (HEADER_KO ++ [LF]) (HEADER_EN ++ [LF])
  /\ (upload_and_transcribe
        (Backend (open_error be_silence) (AudioFileClip be_silence)
                 (write_audiofile be_silence) (transcribe be_silence)
                 (fun _ _ => Failed Scenarios.RATE_LIMIT)
                 (read_error be_silence))
        Scenarios.CLIP_MP4 Scenarios.VIDEO Scenarios.st0).1
     = (upload_and_transcribe be_silence Scenarios.CLIP_MP4 Scenarios.VIDEO
          Scenarios.st0).1.
Proof.
  apply (X10_no_segments be_silence Scenarios.CLIP_MP4 Scenarios.VIDEO
           Scenarios.st0 Scenarios.WAVEFORM).
  repeat split.
Defined.

(** X11. What a completed run writes for a segment whose translation
    call answered with text that can be encoded is the answer without
    its leading and trailing white space: only white space is cut off,
    at the two ends, and the text that stands after the timing in the
    segment's line of the translation file neither starts nor ends with
    a white-space character. *)
Theorem X11_translation_trimmed (be : backend) (filename : pystr)
    (content : list N) (st : state) (audio : list N) (segs : list segment)
    (j : nat) (seg : segment) (c : pystr) :
  stages_ok be filename content audio segs ->
  segs !! j = Some seg ->
  ChatCompletion be j (seg_text seg) = Done c ->
  encodable c ->
  exists (pre written post : pystr) (lines : list pystr),
    c = pre ++ written ++ post
    /\ Forall (fun x => isspace x = true) pre
    /\ Forall (fun x => isspace x = true) post
    /\ (forall x, head written = Some x -> isspace x = false)
    /\ (forall x, last written = Some x -> isspace x = false)
    /\ fs (upload_and_transcribe be filename content st).2
         !! english_transcription_file_of filename
       = Some (HEADER_EN ++ [LF] ++ concat lines)
    /\ lines !! j
       = Some (timing (seg_start seg) (seg_end seg) ++ written ++ [LF]).
Proof.
  intros Hok Hj Hc Henc.
  destruct (strip_trimmed c) as (pre & post & Hs & Hpre & Hpost & Hh & Hl).
  assert (Hstrip : encodable (strip c)).
  { rewrite Hs in Henc. by apply encodable_app in Henc as [_ [? _]%encodable_app]. }
  destruct (upload_completes _ _ _ st _ _ Hok) as (st' & -> & Hfs & _).
  exists pre, (strip c), post, (translation_lines be 0 segs).
  split; [exact Hs|]. split; [exact Hpre|]. split; [exact Hpost|].
  split; [exact Hh|]. split; [exact Hl|]. cbn [snd]. split.
  - rewrite Hfs. apply fs_translation_english.
  - rewrite translation_lines_lookup, Hj. simpl. unfold translation_line.
    destruct (text_or_error_cases be j seg)
      as [(c' & Hc' & _ & -> & _)
         |[(c' & m & Hc' & Hno & _)|(e' & He' & _)]]; [| |congruence];
      rewrite Hc in Hc'; injection Hc' as <-; [done|by destruct Hno].
Qed.

Lemma X11_translation_trimmed_witness :
  exists (pre written post : pystr) (lines : list pystr),
    [32] ++ Scenarios.HELLO ++ [LF] = pre ++ written ++ post
    /\ Forall (fun x => isspace x = true) pre
    /\ Forall (fun x => isspace x = true) post
    /\ fs (upload_and_transcribe Scenarios.be_second_fails Scenarios.CLIP_MP4
             Scenarios.VIDEO Scenarios.st0).2
         !! english_transcription_file_of Scenarios.CLIP_MP4
       = Some (HEADER_EN ++ [LF] ++ concat lines)
    /\ lines !! 0%nat
       = Some (timing (seg_start Scenarios.SEG0) (seg_end Scenarios.SEG0)
               ++ written ++ [LF]).
Proof.
  destruct (X11_translation_trimmed Scenarios.be_second_fails
              Scenarios.CLIP_MP4 Scenarios.VIDEO Scenarios.st0
              Scenarios.WAVEFORM
              [Scenarios.SEG0; Scenarios.SEG1; Scenarios.SEG2]
              0%nat Scenarios.SEG0 ([32] ++ Scenarios.HELLO ++ [LF])
              second_fails_stages_ok eq_refl eq_refl)
    as (pre & written & post & lines & H1 & H2 & H3 & _ & _ & H4 & H5).
  { apply (bool_decide_unpack _). vm_compute. reflexivity. }
  exists pre, written, post, lines.
  split; [exact H1|]. split; [exact H2|]. split; [exact H3|].
  split; [exact H4|exact H5].
Defined.

(** X12. The time printed by [:.2f] for a finite value [m * 2^e] is the
    value rounded to the nearest hundredth: the digits before and after
    the point, read as a number of hundredths [h], differ from a hundred
    times the value by at most one half (stated over the denominator
    [2^(-e)]), the sign is kept and two digits follow the point. *)
Theorem X12_printed_time_nearest (neg : bool) (m : positive) (e : Z) :
  exists (int frac : pystr),
    format_2f (F_finite neg m e) = sign_str neg ++ int ++ DOT :: frac
    /\ length frac = 2%nat
    /\ let h := 100 * digits_value int + digits_value frac in
       let den := 2 ^ Z.to_N (- e) in
       let num := Npos m * 2 ^ Z.to_N e * 100 in
       2 * (h * den) <= 2 * num + den /\ 2 * num <= 2 * (h * den) + den.
Proof.
  set (h := hundredths m e).
  exists (decimal (h / 100)), (two_digits (h mod 100)).
  split; [done|]. split; [done|]. cbv zeta.
  rewrite digits_value_decimal, digits_value_two_digits
    by (apply N.mod_lt; lia).
  assert (Hh : 100 * (h / 100) + h mod 100 = h)
    by (symmetry; apply N.div_mod; lia).
  rewrite Hh. subst h. destruct e as [|k|k].
  - simpl. lia.
  - rewrite (hundredths_exact m (Zpos k)) by lia. simpl.
    generalize (N.pos m * N.pos (2 ^ k) * 100). intros x. lia.
  - pose proof (hundredths_nearest m k) as H. cbv zeta in H.
    change (Z.to_N (- Z.neg k)) with (Npos k).
    change (Z.to_N (Z.neg k)) with 0.
    rewrite N.pow_0_r, N.mul_1_r. exact H.
Qed.

(* ===================================================================== *)
(** ** Properties of [upload_video] *)
(* ===================================================================== *)

Module UploadFacts.

(** What [upload_video] does, by whether the file can be opened. *)
Lemma upload_video_cases (be : backend) (filename : pystr)
    (content : list N) (st : state) :
  match open_error be (join UPLOAD_FOLDER filename) with
  | None =>
      upload_video be filename content st
      = (UploadJSON 200 (FILE_ ++ filename ++ UPLOAD_DONE),
         State (<[join UPLOAD_FOLDER filename := content]> (fs st))
               (log st) (open_clips st))
  | Some msg =>
      upload_video be filename content st
      = (UploadHTTPException 500 (UPLOAD_FAILED ++ msg), st)
  end.
Proof.
  unfold upload_video, upload_body.
  destruct (open_error be (join UPLOAD_FOLDER filename)) as [msg|] eqn:Ho.
  - by stop_by open_w_refused.
  - step_by open_w_ok. step_by f_write_bytes_at.
    unfold mret, M_ret. by rewrite insert_insert_eq, app_nil_l.
Qed.

(** Two runs of the [try] block that start from stores with the same
    files once the video is written end with the same files. *)
Lemma run_case_files (be : backend) (filename : pystr) (content : list N)
    (st1 st2 : state) (o1 o2 : result (pystr * pystr) * state) :
  run_case be filename content st1 o1 ->
  run_case be filename content st2 o2 ->
  open_error be (video_path_of filename) = None ->
  fs_video filename content (fs st1) = fs_video filename content (fs st2) ->
  fs o1.2 = fs o2.2.
Proof.
  intros H1 H2 Hv Heq. destruct H1; destruct H2; settle_oracles;
    try match goal with
        | H : stages_ok _ _ _ _ _ |- _ =>
            destruct H as (? & ? & ? & ? & ? & ? & ? & ? & ?); settle_oracles
        end;
    cbn [snd];
    repeat match goal with H : fs _ = _ |- _ => rewrite H; clear H end;
    unfold fs_translation, fs_transcript_cut, fs_transcript, fs_audio;
    by rewrite ?Heq.
Qed.

End UploadFacts.

Import UploadFacts.

(** X14. The file name of the upload is used as it comes: a name that is
    an absolute path makes [upload_video] write at that very path,
    outside the upload folder; any other name is appended to the upload
    folder and a separator, unchanged. *)
Theorem X14_upload_path_from_client (be : backend) (filename : pystr)
    (content : list N) (st : state) :
  open_error be (join UPLOAD_FOLDER filename) = None ->
  (startswith_sep filename = true ->
   fs (upload_video be filename content st).2 !! filename = Some content)
  /\ (startswith_sep filename = false ->
      fs (upload_video be filename content st).2
         !! (UPLOAD_FOLDER ++ SEP :: filename) = Some content).
Proof.
  intros Ho. pose proof (upload_video_cases be filename content st) as H.
  rewrite Ho in H. rewrite H. cbn [snd fs]. split; intros Hs.
  - rewrite (join_absolute _ _ Hs). apply lookup_insert_eq.
  - rewrite (join_upload_relative _ Hs). apply lookup_insert_eq.
Qed.

Lemma X14_upload_path_from_client_witness :
  fs (upload_video Scenarios.be_second_fails ABS_MP4 Scenarios.VIDEO
        Scenarios.st0).2 !! ABS_MP4 = Some Scenarios.VIDEO
  /\ fs (upload_video Scenarios.be_second_fails Scenarios.CLIP_MP4
          Scenarios.VIDEO Scenarios.st0).2
       !! (UPLOAD_FOLDER ++ SEP :: Scenarios.CLIP_MP4)
     = Some Scenarios.VIDEO.
Proof.
  split.
  - apply (X14_upload_path_from_client Scenarios.be_second_fails ABS_MP4
             Scenarios.VIDEO Scenarios.st0); reflexivity.
  - apply (X14_upload_path_from_client Scenarios.be_second_fails
             Scenarios.CLIP_MP4 Scenarios.VIDEO Scenarios.st0); reflexivity.
Defined.

(** X15. [upload_and_transcribe] never uses what [upload_video] stored:
    it stores the video again from its own request. After an earlier
    [upload_video] under the same name, with whatever bytes, its response
    and the files it leaves are what they are without that upload. *)
Theorem X15_stt_ignores_earlier_upload (be : backend) (filename : pystr)
    (content earlier : list N) (st : state) :
  let st1 := (upload_video be filename earlier st).2 in
  (upload_and_transcribe be filename content st1).1
  = (upload_and_transcribe be filename content st).1
  /\ fs (upload_and_transcribe be filename content st1).2
     = fs (upload_and_transcribe be filename content st).2.
Proof.
  cbv zeta.
  pose proof (upload_video_cases be filename earlier st) as Hup.
  set (st1 := (upload_video be filename earlier st).2).
  pose proof (stt_body_run_case be filename content st1) as R1.
  pose proof (stt_body_run_case be filename content st) as R2.
  pose proof (run_case_result _ _ _ _ _ _ _ R1 R2) as Hres.
  assert (Hfs : fs (stt_body be filename content st1).2
                = fs (stt_body be filename content st).2).
  { destruct (open_error be (join UPLOAD_FOLDER filename)) as [msg|] eqn:Ho.
    - subst st1. by rewrite Hup.
    - apply (run_case_files _ _ _ _ _ _ _ R1 R2 Ho).
      subst st1. rewrite Hup. cbn [snd fs]. unfold fs_video.
      apply insert_insert_eq. }
  unfold upload_and_transcribe.
  destruct (stt_body be filename content st1) as [r1 s1].
  destruct (stt_body be filename content st) as [r2 s2].
  simpl in Hres, Hfs. subst r2. by destruct r1 as [[t tr]|e].
Qed.

(* ===================================================================== *)
(** ** Further facts: the user registry *)
(* ===================================================================== *)

Module RegistryFacts.

Local Open Scope Z_scope.

Lemma find_app {A} (f : A -> bool) (l1 l2 : list A) :
  find f (l1 ++ l2)
  = match find f l1 with
    | Some x => Some x
    | None => find f l2
    end.
Proof.
  induction l1 as [|x l1 IH]; simpl; [done|]. by destruct (f x).
Qed.

Lemma map_key_inj {A B} (f : A -> B) (l : list A) (x y : A) :
  NoDup (map f l) -> x ∈ l -> y ∈ l -> f x = f y -> x = y.
Proof.
  induction l as [|z l IH]; simpl; intros Hnd Hx Hy Hf; [by inversion Hx|].
  apply NoDup_cons in Hnd as [Hz Hnd].
  apply elem_of_cons in Hx as [->|Hx]; apply elem_of_cons in Hy as [->|Hy];
    try done.
  - exfalso. apply Hz. rewrite Hf. by apply (list_elem_of_fmap_2 f).
  - exfalso. apply Hz. rewrite <- Hf. by apply (list_elem_of_fmap_2 f).
  - by apply IH.
Qed.

(** Whatever the plan, a scan returns the rows of the table, each
    once. *)
Lemma place_Permutation (plan : row -> row -> bool) (r : row)
    (rows : list row) :
  place plan r rows ≡ₚ r :: rows.
Proof.
  induction rows as [|x rest IH]; simpl; [done|].
  destruct (plan r x); [done|]. rewrite IH. apply Permutation_swap.
Qed.

Lemma scan_Permutation (plan : row -> row -> bool) (rows : list row) :
  scan plan rows ≡ₚ rows.
Proof.
  unfold scan. induction rows as [|r rest IH]; simpl; [done|].
  by rewrite place_Permutation, IH.
Qed.

Lemma list_users_rows (plan : row -> row -> bool) (d : db) :
  list_users plan d = map user_of (scan plan (users d)).
Proof.
  unfold list_users, select_all. rewrite map_map. done.
Qed.

(** The users listed are those of the rows of the table. *)
Lemma elem_of_list_users (plan : row -> row -> bool) (d : db) (u : User.t) :
  u ∈ list_users plan d <-> exists r, r ∈ users d /\ u = user_of r.
Proof.
  rewrite list_users_rows. change (map user_of ?l) with (user_of <$> l).
  rewrite list_elem_of_fmap. split; intros (r & H1 & H2); exists r.
  - split; [|done]. by rewrite <- (scan_Permutation plan).
  - split; [done|]. by rewrite (scan_Permutation plan).
Qed.

(** The three ways [create_user] ends. *)
Lemma create_user_cases (data : UserCreate.t) (d : db) :
  (username_taken (UserCreate.username data) d
   /\ create_user data d = (HTTPError 400 DUPLICATE_USERNAME, d))
  \/ (~ username_taken (UserCreate.username data) d
      /\ ~ fits data d
      /\ exists msg d1,
           create_user data d = (ServerError msg, d1)
           /\ users d1 = users d
           /\ next_user_id d <= next_user_id d1)
  \/ (~ username_taken (UserCreate.username data) d
      /\ fits data d
      /\ exists id,
           create_user data d
           = (Returned (User.Make id (UserCreate.username data)),
              Db (users d ++ [new_row data d]) (next_user_id d + 1))).
Proof.
  unfold create_user.
  destruct (select_user_id_by_username _ d) as [z|] eqn:Hsel.
  - left. split; [|done].
    destruct (decide (existsb (has_username (UserCreate.username data))
                              (users d) = true)) as [Hex|Hex];
      [by apply username_taken_existsb|].
    exfalso. rewrite <- username_taken_existsb in Hex.
    apply select_by_username_None in Hex. congruence.
  - right. apply select_by_username_None in Hsel.
    destruct (insert _ _ d) as [[[]|msg] d1] eqn:E.
    + right. apply insert_done in E as [Hins ->].
      apply insertable_fits in Hins; [|done].
      split; [done|]. split; [done|]. fold (new_row data d). cbv zeta.
      destruct (select_max_user_id _) as [m|] eqn:Hmax; [by eexists|].
      exfalso. unfold select_max_user_id in Hmax. simpl in Hmax.
      by destruct (users d).
    + left. apply insert_failed in E as (Hins & Hu & Hn).
      split; [done|]. split; [|exists msg, d1; split; [done|]; split; [done|lia]].
      intros Hfit. apply insertable_fits in Hfit; [|done]. congruence.
Qed.

(** Appending a row that fits keeps the table in order. *)
Lemma db_ok_append (data : UserCreate.t) (d : db) :
  db_ok d ->
  ~ username_taken (UserCreate.username data) d ->
  db_ok (Db (users d ++ [new_row data d]) (next_user_id d + 1)).
Proof.
  intros (Hwf & Hids & Hnames) Hfree. unfold db_ok, db_wf in *. simpl.
  rewrite !map_app. simpl. split; [|split].
  - apply Forall_app. split.
    + eapply Forall_impl; [exact Hwf|]. simpl. intros r Hr. lia.
    + repeat constructor. simpl. lia.
  - apply NoDup_app. split; [done|]. split; [|apply NoDup_singleton].
    intros id Hid Hnew. apply list_elem_of_singleton in Hnew. subst id.
    apply list_elem_of_fmap in Hid as (r & Heq & Hr).
    rewrite Forall_forall in Hwf. specialize (Hwf r Hr). lia.
  - apply NoDup_app. split; [done|]. split; [|apply NoDup_singleton].
    intros name Hname Hnew. apply list_elem_of_singleton in Hnew. subst name.
    apply list_elem_of_fmap in Hname as (r & Heq & Hr).
    apply Hfree. by exists r.
Qed.

(** Moving the sequence on keeps the table in order. *)
Lemma db_ok_same_rows (d d1 : db) :
  db_ok d -> users d1 = users d -> next_user_id d <= next_user_id d1 ->
  db_ok d1.
Proof.
  intros (Hwf & Hids & Hnames) Hu Hn. unfold db_ok, db_wf in *.
  rewrite Hu. split; [|done].
  eapply Forall_impl; [exact Hwf|]. simpl. intros r Hr. lia.
Qed.

Lemma create_user_db_ok (data : UserCreate.t) (d : db) :
  db_ok d -> db_ok (create_user data d).2.
Proof.
  intros Hok.
  destruct (create_user_cases data d)
    as [[_ ->]|[(_ & _ & msg & d1 & -> & Hu & Hn)|(Hfree & _ & id & ->)]];
    simpl; [done|by eapply db_ok_same_rows|by apply db_ok_append].
Qed.

Lemma fold_other_signup_db_ok (between : list UserCreate.t) :
  forall d : db, db_ok d -> db_ok (fold_left other_signup between d).
Proof.
  induction between as [|o rest IH]; intros d Hok; simpl; [done|].
  apply IH. by apply create_user_db_ok.
Qed.

(** The table of a returning [create_user_among] is in order, and the id
    it reports is the inserted row's only if nothing came in between. *)
Lemma create_user_among_table (between : list UserCreate.t)
    (data : UserCreate.t) (d d' : db) (u : User.t) :
  db_ok d ->
  create_user_among between data d = (Returned u, d') ->
  db_ok d'
  /\ new_row data d ∈ users d'
  /\ user_id_present (User.user_id u) d'
  /\ (User.user_id u = next_user_id d ->
      users d' = users d ++ [new_row data d]).
Proof.
  intros Hok E.
  apply create_user_among_returned in E as (Hfree & _ & -> & Hmax & _).
  pose proof (db_ok_append data d Hok Hfree) as Hok1.
  set (d1 := Db (users d ++ [new_row data d]) (next_user_id d + 1)) in *.
  destruct (fold_other_signup_grows between d1) as (extra & Hu & Hextra & _).
  apply select_max_spec in Hmax as [Hpres Hle].
  split; [by apply fold_other_signup_db_ok|].
  split; [rewrite Hu; simpl; rewrite !elem_of_app, list_elem_of_singleton; auto|].
  split; [done|].
  intros Hid. rewrite Hu. simpl.
  destruct extra as [|r extra]; [by rewrite app_nil_r|]. exfalso.
  apply Forall_cons in Hextra as [Hr _]. simpl in Hr.
  assert (Hin : r ∈ users (fold_left other_signup between d1))
    by (rewrite Hu, elem_of_app, elem_of_cons; auto).
  specialize (Hle r Hin). lia.
Qed.

(** Looking a row up by an id that occurs once finds that row. *)
Lemma read_user_row (r : row) (d : db) :
  NoDup (map row_user_id (users d)) ->
  r ∈ users d ->
  read_user (row_user_id r) d = Returned (user_of r).
Proof.
  intros Hnd Hr. unfold read_user, select_by_user_id.
  destruct (find (has_user_id (row_user_id r)) (users d)) as [r'|] eqn:Hf.
  - apply find_some in Hf as [Hin Hid].
    apply bool_decide_eq_true in Hid. apply list_elem_of_In in Hin.
    by rewrite (map_key_inj row_user_id (users d) r' r Hnd Hin Hr Hid).
  - exfalso. apply find_None_existsb in Hf.
    assert (Hex : existsb (has_user_id (row_user_id r)) (users d) = true).
    { apply existsb_elem_of. exists r. split; [done|].
      by apply bool_decide_eq_true. }
    congruence.
Qed.

(** What [read_user] returns is a row of the table with the id asked. *)
Lemma read_user_returned (id : Z) (d : db) (u : User.t) :
  read_user id d = Returned u ->
  exists r, r ∈ users d /\ row_user_id r = id /\ u = user_of r.
Proof.
  unfold read_user, select_by_user_id.
  destruct (find (has_user_id id) (users d)) as [r|] eqn:Hf; [|discriminate].
  simpl. intros [= <-]. apply find_some in Hf as [Hin Hid].
  apply bool_decide_eq_true in Hid. exists r.
  split; [by apply list_elem_of_In|]. by split.
Qed.

(** A look-up that finds a row keeps finding it when rows are added. *)
Lemma read_user_append (id : Z) (d : db) (extra : list row) (n : Z) :
  user_id_present id d ->
  read_user id (Db (users d ++ extra) n) = read_user id d.
Proof.
  intros Hp. apply user_id_present_existsb in Hp.
  unfold read_user, select_by_user_id. simpl. rewrite find_app.
  destruct (find (has_user_id id) (users d)) eqn:Hf; [done|].
  apply find_None_existsb in Hf. congruence.
Qed.

Lemma read_user_extended (id : Z) (d d' : db) (extra : list row) :
  users d' = users d ++ extra ->
  user_id_present id d ->
  read_user id d' = read_user id d.
Proof.
  intros Hu Hp. rewrite <- (read_user_append id d extra 0 Hp).
  unfold read_user, select_by_user_id. simpl. by rewrite Hu.
Qed.

Lemma create_user_duplicate (data : UserCreate.t) (d : db) :
  username_taken (UserCreate.username data) d ->
  create_user data d = (HTTPError 400 DUPLICATE_USERNAME, d).
Proof.
  intros Ht.
  destruct (create_user_cases data d)
    as [[_ H]|[(Hn & _)|(Hn & _)]]; done.
Qed.

Lemma insert_taken (name pw : pystr) (d : db) :
  username_taken name d ->
  insert name pw d
  = (Failed CONSTRAINT_VIOLATION, Db (users d) (sequence_used d)).
Proof.
  intros Ht. apply username_taken_existsb in Ht.
  unfold insert, insertable. rewrite Ht. simpl.
  by rewrite andb_false_r.
Qed.

(** Whatever [create_user] does among other sign-ups, the table only
    gains rows. *)
Lemma create_user_among_grows (between : list UserCreate.t)
    (data : UserCreate.t) (d : db) :
  exists extra, users (create_user_among between data d).2 = users d ++ extra.
Proof.
  unfold create_user_among.
  destruct (select_user_id_by_username _ d);
    [exists []; by rewrite app_nil_r|].
  destruct (insert _ _ d) as [[[]|msg] d1] eqn:E.
  - apply insert_done in E as [_ ->]. cbv zeta.
    destruct (fold_other_signup_grows between
                (Db (users d ++ [Row (next_user_id d) (UserCreate.username data)
                                     (UserCreate.password data)])
                    (next_user_id d + 1))) as (extra & Hu & _).
    exists ([Row (next_user_id d) (UserCreate.username data)
                 (UserCreate.password data)] ++ extra).
    rewrite app_assoc. by destruct (select_max_user_id _).
  - apply insert_failed in E as (_ & Hu & _).
    exists []. by rewrite app_nil_r.
Qed.

Lemma insert_db_ok (name pw : pystr) (r : attempt unit) (d d1 : db) :
  db_ok d -> insert name pw d = (r, d1) -> db_ok d1.
Proof.
  intros Hok E. destruct r as [[]|msg].
  - apply insert_done in E as [Hins ->].
    apply (db_ok_append (UserCreate.Make name pw) d Hok). simpl.
    rewrite username_taken_existsb. unfold insertable in Hins.
    rewrite !andb_true_iff, !negb_true_iff in Hins.
    destruct Hins as [[_ Hname] _]. congruence.
  - apply insert_failed in E as (_ & Hu & Hn).
    eapply db_ok_same_rows; [exact Hok|done|lia].
Qed.

Lemma create_user_among_db_ok (between : list UserCreate.t)
    (data : UserCreate.t) (d : db) :
  db_ok d -> db_ok (create_user_among between data d).2.
Proof.
  intros Hok. unfold create_user_among.
  destruct (select_user_id_by_username _ d); [done|].
  destruct (insert _ _ d) as [[[]|msg] d1] eqn:E;
    apply insert_db_ok in E; try done. cbv zeta.
  pose proof (fold_other_signup_db_ok between d1 E).
  by destruct (select_max_user_id _).
Qed.

Lemma init_db_db_ok (d : db) : db_ok d -> db_ok (init_db d).
Proof.
  intros Hok. unfold init_db.
  destruct (insert ALICE ALICE_PW d) as [[[]|m1] d1] eqn:E1;
    apply insert_db_ok in E1; try done.
  destruct (insert BOB BOB_PW d1) as [[[]|m2] d2] eqn:E2;
    by apply insert_db_ok in E2.
Qed.

(** [init_db] on a table where Alice's name is taken adds no row. *)
Lemma init_db_taken (d : db) :
  username_taken ALICE d -> users (init_db d) = users d.
Proof.
  intros Ht. unfold init_db. by rewrite (insert_taken ALICE ALICE_PW d Ht).
Qed.


End RegistryFacts.

Import RegistryFacts.

(** X16. A table whose ids all came from the identity sequence and in
    which no id and no user name occurs twice stays such a table under
    [create_user], whatever other sign-ups are committed while it runs,
    and under [init_db]. *)
Theorem X16_table_stays_in_order (between : list UserCreate.t)
    (data : UserCreate.t) (d : db) :
  db_ok d ->
  db_ok (create_user_among between data d).2 /\ db_ok (init_db d).
Proof.
  intros Hok. split.
  - by apply create_user_among_db_ok.
  - by apply init_db_db_ok.
Qed.

Lemma X16_table_stays_in_order_witness :
  db_ok (create_user_among [Scenarios.DAVE] Scenarios.CAROL Scenarios.db0).2
  /\ db_ok (init_db Scenarios.db0).
Proof.
  apply (X16_table_stays_in_order [Scenarios.DAVE] Scenarios.CAROL
           Scenarios.db0).
  unfold db_ok, db_wf.
  repeat split; apply (bool_decide_unpack _); by vm_compute.
Defined.

(** X17. Round trip. When [create_user], served alone on a table whose
    ids all came from the identity sequence, returns a user, [read_user]
    with the returned id gives back that same user on the table it left,
    [list_users] lists the user, in whatever order the store returns the
    rows, and the user carries the requested user name. *)
Theorem X17_created_user_readable (plan : row -> row -> bool)
    (data : UserCreate.t) (d d' : db) (u : User.t) :
  db_wf d ->
  create_user data d = (Returned u, d') ->
  read_user (User.user_id u) d' = Returned u
  /\ u ∈ list_users plan d'
  /\ User.username u = UserCreate.username data.
Proof.
  intros Hwf E.
  pose proof (create_user_alone data d d' u Hwf E) as Hid.
  change (create_user_among [] data d = (Returned u, d')) in E.
  apply create_user_among_returned in E as (_ & _ & -> & _ & Hname).
  simpl. destruct u as [uid uname]. simpl in Hid, Hname. subst uid uname.
  split; [|split; [|done]].
  - unfold read_user, select_by_user_id. simpl. rewrite find_app.
    destruct (find (has_user_id (next_user_id d)) (users d)) as [r|] eqn:Hf.
    + exfalso. apply find_some in Hf as [Hin Hr].
      apply bool_decide_eq_true in Hr. apply list_elem_of_In in Hin.
      unfold db_wf in Hwf. rewrite Forall_forall in Hwf.
      specialize (Hwf r Hin). lia.
    + simpl. unfold has_user_id. simpl.
      by rewrite bool_decide_eq_true_2.
  - apply elem_of_list_users. exists (new_row data d). simpl.
    split; [|done]. rewrite elem_of_app, list_elem_of_singleton. auto.
Qed.

Lemma X17_created_user_readable_witness :
  read_user 3 (create_user Scenarios.CAROL Scenarios.db0).2
  = Returned (User.Make 3 (UserCreate.username Scenarios.CAROL))
  /\ User.Make 3 (UserCreate.username Scenarios.CAROL)
     ∈ list_users by_username (create_user Scenarios.CAROL Scenarios.db0).2
  /\ UserCreate.username Scenarios.CAROL
     = UserCreate.username Scenarios.CAROL.
Proof.
  apply (X17_created_user_readable by_username Scenarios.CAROL Scenarios.db0
           (create_user Scenarios.CAROL Scenarios.db0).2
           (User.Make 3 (UserCreate.username Scenarios.CAROL))).
  - unfold db_wf. apply (bool_decide_unpack _). by vm_compute.
  - by vm_compute.
Defined.

(** X18. A sign-up never disturbs the users already there: whatever
    [create_user] ends in, and whatever other sign-ups are committed
    while it runs, [read_user] answers as before for every id the table
    had, and every user [list_users] listed before is listed after. *)
Theorem X18_signup_keeps_existing_users (plan : row -> row -> bool)
    (between : list UserCreate.t) (data : UserCreate.t) (d : db) (id : Z) :
  user_id_present id d ->
  read_user id (create_user_among between data d).2 = read_user id d
  /\ (forall v : User.t,
        v ∈ list_users plan d ->
        v ∈ list_users plan (create_user_among between data d).2).
Proof.
  intros Hp.
  destruct (create_user_among_grows between data d) as (extra & Hu).
  split.
  - by apply (read_user_extended id d _ extra).
  - intros v. rewrite !elem_of_list_users. intros (r & Hr & ->).
    exists r. split; [|done]. rewrite Hu, elem_of_app. auto.
Qed.

Lemma X18_signup_keeps_existing_users_witness :
  read_user 2
    (create_user_among [Scenarios.DAVE] Scenarios.CAROL Scenarios.db0).2
  = read_user 2 Scenarios.db0
  /\ (forall v : User.t,
        v ∈ list_users by_username Scenarios.db0 ->
        v ∈ list_users by_username
              (create_user_among [Scenarios.DAVE] Scenarios.CAROL
                 Scenarios.db0).2).
Proof.
  apply (X18_signup_keeps_existing_users by_username [Scenarios.DAVE]
           Scenarios.CAROL Scenarios.db0 2).
  rewrite user_id_present_existsb. by vm_compute.
Defined.

(** X19. After a sign-up that returned a user, a further [create_user]
    with the same user name, whatever its password, fails with status
    400 and the duplicate-username detail and leaves the table as it
    was. *)
Theorem X19_second_signup_rejected (between : list UserCreate.t)
    (data : UserCreate.t) (d d' : db) (u : User.t) (password : pystr) :
  create_user_among between data d = (Returned u, d') ->
  create_user (UserCreate.Make (UserCreate.username data) password) d'
  = (HTTPError 400 DUPLICATE_USERNAME, d').
Proof.
  intros E. apply create_user_duplicate. simpl.
  apply create_user_among_returned in E as (_ & _ & -> & _).
  destruct (fold_other_signup_grows between
              (Db (users d ++ [new_row data d]) (next_user_id d + 1)))
    as (extra & Hu & _).
  exists (new_row data d). rewrite Hu. simpl.
  rewrite !elem_of_app, list_elem_of_singleton. auto.
Qed.

Lemma X19_second_signup_rejected_witness :
  create_user CAROL_AGAIN (create_user Scenarios.CAROL Scenarios.db0).2
  = (HTTPError 400 DUPLICATE_USERNAME,
     (create_user Scenarios.CAROL Scenarios.db0).2).
Proof.
  apply (X19_second_signup_rejected [] Scenarios.CAROL Scenarios.db0
           (create_user Scenarios.CAROL Scenarios.db0).2
           (User.Make 3 (UserCreate.username Scenarios.CAROL))
           [120; 121; 122]).
  by vm_compute.
Defined.

(** X20. When another sign-up is committed between the insert and the
    [SELECT MAX(user_id)] of a [create_user] that returns, on a table in
    order, the response carries the caller's user name with an id that
    [read_user] resolves to a user of another name. *)
Theorem X20_interleaved_signup_names_other_user
    (between : list UserCreate.t) (data : UserCreate.t) (d d' : db)
    (u : User.t) :
  db_ok d ->
  create_user_among between data d = (Returned u, d') ->
  users d' <> users d ++ [new_row data d] ->
  User.username u = UserCreate.username data
  /\ exists other : User.t,
       read_user (User.user_id u) d' = Returned other
       /\ User.username other <> UserCreate.username data.
Proof.
  intros Hok E Hne.
  pose proof (create_user_among_table between data d d' u Hok E)
    as ((_ & Hids & Hnames) & Hnew & (r & Hr & Hid) & Honly).
  apply create_user_among_returned in E as (_ & _ & _ & _ & Hname).
  split; [done|]. exists (user_of r). split.
  - rewrite <- Hid. by apply read_user_row.
  - simpl. intros Heq.
    assert (r = new_row data d)
      by (by apply (map_key_inj row_username (users d'))).
    subst r. simpl in Hid. by apply Hne, Honly.
Qed.

Lemma X20_interleaved_signup_names_other_user_witness :
  UserCreate.username Scenarios.CAROL = UserCreate.username Scenarios.CAROL
  /\ exists other : User.t,
       read_user 4
         (create_user_among [Scenarios.DAVE] Scenarios.CAROL Scenarios.db0).2
       = Returned other
       /\ User.username other <> UserCreate.username Scenarios.CAROL.
Proof.
  apply (X20_interleaved_signup_names_other_user [Scenarios.DAVE]
           Scenarios.CAROL Scenarios.db0
           (create_user_among [Scenarios.DAVE] Scenarios.CAROL
              Scenarios.db0).2
           (User.Make 4 (UserCreate.username Scenarios.CAROL))).
  - unfold db_ok, db_wf.
    repeat split; apply (bool_decide_unpack _); by vm_compute.
  - by vm_compute.
  - by vm_compute.
Defined.

(** X21. On a table in which no id occurs twice, [list_users] and
    [read_user] agree, in whatever order the store returns the rows: a
    user is in the list exactly when [read_user] with the user's id
    returns that user. *)
Theorem X21_listed_users_readable (plan : row -> row -> bool) (d : db)
    (u : User.t) :
  NoDup (map row_user_id (users d)) ->
  u ∈ list_users plan d <-> read_user (User.user_id u) d = Returned u.
Proof.
  intros Hnd. rewrite elem_of_list_users. split.
  - intros (r & Hr & ->). by apply read_user_row.
  - intros Hread. apply read_user_returned in Hread as (r & Hr & _ & ->).
    by exists r.
Qed.

Lemma X21_listed_users_readable_witness :
  User.Make 2 BOB ∈ list_users by_username Scenarios.db0
  <-> read_user 2 Scenarios.db0 = Returned (User.Make 2 BOB).
Proof.
  apply (X21_listed_users_readable by_username Scenarios.db0
           (User.Make 2 BOB)).
  apply (bool_decide_unpack _). by vm_compute.
Defined.

(** X22. [init_db] on a table that already has a user named Alice adds
    nothing: the first sample insert raises, the second is skipped, so a
    missing Bob is not put back. *)
Theorem X22_init_db_stops_at_alice (d : db) :
  username_taken ALICE d ->
  users (init_db d) = users d.
Proof.
  intros Ht. by apply init_db_taken.
Qed.

Lemma X22_init_db_stops_at_alice_witness :
  users (init_db ALICE_ONLY) = users ALICE_ONLY.
Proof.
  apply (X22_init_db_stops_at_alice ALICE_ONLY).
  rewrite username_taken_existsb. by vm_compute.
Defined.


